(** * Transaction-log parser: a shallow embedding of
    [src/anomaly_detection/components/data_parser.py]

    The development follows the Python module top-down:

    - the Python values the parser handles: [str] as a list of Unicode code
      points, exceptions as an error monad, [float] as an IEEE binary64
      value;
    - the part of Python's [re] that the patterns of the module use: the
      syntax of the patterns, read from the raw strings of the source, and a
      backtracking matcher with greedy repetition and capture groups;
    - [datetime.strptime] for the two formats of the module;
    - [BaseTransactionParser]: [parse_datetime], [extract_amount],
      [get_currency_code], [clean_field];
    - [TransactionCleaner]: [parse_transaction_line] and
      [clean_transaction_logs];
    - the words of the specification that the properties are stated in: the
      registry of grammars, the timestamp layouts, what a pattern reads;
    - the properties. *)

From Stdlib Require Import NArith ZArith List Bool String Ascii Lia.
From Stdlib Require Import Floats.SpecFloat Floats.PrimFloat Floats.FloatOps.
From Stdlib Require Import Sorting.Sorted.
Import ListNotations.

Set Implicit Arguments.
Set Warnings "-inexact-float".
Local Open Scope N_scope.

(** ** Python strings *)

(** A Python [str] is a sequence of Unicode code points. *)
Definition char := N.
Definition str := list char.

Module Utf8.

(** Source literals are written here as Rocq strings, that is as the UTF-8
    bytes of the Python source file; [decode] reads them back into code
    points, so that ["€"] below is the one-character Python string
    U+20AC. *)

(** [go acc need s]: [need] continuation bytes are still expected for the
    code point whose high bits are [acc]. *)
Fixpoint go (acc : N) (need : nat) (s : string) : str :=
  match s with
  | EmptyString => []
  | String a rest =>
      let b := N_of_ascii a in
      match need with
      | S n =>
          let acc' := acc * 64 + (b mod 64) in
          match n with
          | O => acc' :: go 0 O rest
          | S _ => go acc' n rest
          end
      | O =>
          if b <? 128 then b :: go 0 O rest
          else if b <? 224 then go (b mod 32) 1%nat rest
          else if b <? 240 then go (b mod 16) 2%nat rest
          else go (b mod 8) 3%nat rest
      end
  end.

Definition decode (s : string) : str := go 0 O s.

End Utf8.

(** [u "..."] is the Python string literal ["..."]. *)
Definition u (s : string) : str := Utf8.decode s.

Definition chr (s : string) : char := hd 0 (u s).

(** [a == b] *)
Fixpoint str_eqb (a b : str) : bool :=
  match a, b with
  | [], [] => true
  | x :: a', y :: b' => (x =? y) && str_eqb a' b'
  | _, _ => false
  end.

(** [x in [a, b, ...]] on strings. *)
Definition str_in (x : str) (l : list str) : bool := existsb (str_eqb x) l.

(** [sub in s]: substring test. *)
Fixpoint is_prefix (p s : str) : bool :=
  match p, s with
  | [], _ => true
  | a :: p', b :: s' => (a =? b) && is_prefix p' s'
  | _ :: _, [] => false
  end.

(** [s.startswith(p)] *)
Definition startswith (s p : str) : bool := is_prefix p s.

Fixpoint contains (sub s : str) : bool :=
  is_prefix sub s ||
  match s with
  | [] => false
  | _ :: s' => contains sub s'
  end.

(** [s.replace(old, new)] for a non-empty [old]: non-overlapping occurrences,
    leftmost first.  [skip] counts the characters of an occurrence that was
    just replaced and are still to be dropped. *)
Fixpoint replace_go (old new : str) (skip : nat) (s : str) : str :=
  match s with
  | [] => []
  | c :: s' =>
      match skip with
      | S n => replace_go old new n s'
      | O =>
          if is_prefix old s
          then new ++ replace_go old new (Nat.pred (List.length old)) s'
          else c :: replace_go old new O s'
      end
  end.

Definition replace (s old new : str) : str := replace_go old new O s.

(** [s.split(sep)] for a one-character separator. *)
Fixpoint split_go (sep : char) (cur : str) (s : str) : list str :=
  match s with
  | [] => [rev cur]
  | c :: s' =>
      if c =? sep then rev cur :: split_go sep [] s'
      else split_go sep (c :: cur) s'
  end.

Definition split (s : str) (sep : char) : list str := split_go sep [] s.

(** The two-character string of two double quotes, ['""'] in the source. *)
Definition quoted_empty : str := [34; 34].

(** ** The Unicode character database

    [\d], [\w], [\s], [str.strip], [str.lower], [float] and [int] consult the
    Unicode character database of the Python runtime, which is not part of
    this repository.  The model fixes it on ASCII and on the six non-ASCII
    characters that the source file itself spells (the euro and pound signs
    and the characters of their mis-decoded forms), and takes it as a
    parameter everywhere else: every theorem below holds for every database. *)

Class UnicodeData : Type := {
  (** [Py_UNICODE_TODECIMAL]: the value of a decimal digit *)
  ud_decimal : char -> option N;
  (** [Py_UNICODE_ISALNUM] *)
  ud_alnum : char -> bool;
  (** [Py_UNICODE_ISSPACE] *)
  ud_space : char -> bool;
  (** [str.lower]; on strings, since lower-casing is context dependent
      (final sigma) and may change the length *)
  ud_lower : str -> str
}.

(** A database in which no character outside the fixed part is a digit, a
    letter or a space; used to run the model on concrete inputs. *)
Definition plain_unicode : UnicodeData :=
  {| ud_decimal := fun _ => None;
     ud_alnum := fun _ => false;
     ud_space := fun _ => false;
     ud_lower := fun s => s |}.

Definition between (lo hi c : N) : bool := (lo <=? c) && (c <=? hi).

(** The non-ASCII characters of the source file: U+00A3 pound sign, U+00AC
    not sign, U+00C2 and U+00E2 (capital and small a with circumflex), U+201A
    single low-9 quotation mark, U+20AC euro sign. *)
Definition source_chars : list char := [163; 172; 194; 226; 8218; 8364].

Definition fixed_char (c : char) : bool :=
  (c <? 128) || existsb (N.eqb c) source_chars.

Section Chars.
Context {U : UnicodeData}.

(** The decimal value of a character, [None] when it is not a decimal digit. *)
Definition decimal (c : char) : option N :=
  if between 48 57 c then Some (c - 48)
  else if fixed_char c then None
  else ud_decimal c.

Definition is_decimal (c : char) : bool :=
  match decimal c with Some _ => true | None => false end.

Definition is_alnum (c : char) : bool :=
  if c <? 128 then between 48 57 c || between 65 90 c || between 97 122 c
  else if fixed_char c then (c =? 194) || (c =? 226)
  else is_decimal c || ud_alnum c.

(** ASCII white space of [str]: TAB, LF, VT, FF, CR, FS, GS, RS, US, SPACE. *)
Definition is_space (c : char) : bool :=
  if c <? 128 then between 9 13 c || between 28 32 c
  else if fixed_char c then false
  else ud_space c.

Definition lower_fixed (c : char) : char :=
  if between 65 90 c then c + 32
  else if c =? 194 then 226
  else c.

(** [s.lower()] *)
Definition lower (s : str) : str :=
  if forallb fixed_char s then map lower_fixed s else ud_lower s.

(** [s.strip()] *)
Fixpoint lstrip (s : str) : str :=
  match s with
  | c :: s' => if is_space c then lstrip s' else s
  | [] => []
  end.

Definition rstrip (s : str) : str := rev (lstrip (rev s)).

Definition strip (s : str) : str := rstrip (lstrip s).

End Chars.

(** ** Exceptions *)

Inductive exn : Type :=
| ValueError
| OSError.

Inductive result (A : Type) : Type :=
| Ok (a : A)
| Raise (e : exn).

Arguments Ok {A} a.
Arguments Raise {A} e.

Definition bind {A B : Type} (m : result A) (f : A -> result B) : result B :=
  match m with
  | Ok a => f a
  | Raise e => Raise e
  end.

Notation "x <- m ;; k" := (bind m (fun x => k))
  (at level 61, m at next level, right associativity).

(** ** [float]

    [float(s)] is correctly rounded: the result is the binary64 value
    nearest to the decimal number that [s] spells.  The model covers the
    texts made of decimal digits and dots, which are all that the parser
    ever passes (it removes the commas from a run of digits, commas and
    dots first; see [float_argument7] and the lemmas after it): [float]
    accepts those with at least one digit and at most one dot, and raises
    [ValueError] on the others. *)

Definition float_of_decimal (m : N) (scale : N) : float :=
  match m with
  | N0 => 0%float
  | Npos p =>
      SF2Prim (SFdiv prec emax
                 (S754_finite false p 0)
                 (S754_finite false (Z.to_pos (10 ^ Z.of_N scale)) 0))
  end.

Section Float.
Context {U : UnicodeData}.

(** Reads a run of decimal digits: the number read (continuing [acc]), how
    many digits there were (continuing [cnt]), and what follows the run. *)
Fixpoint read_digits (s : str) (acc cnt : N) : N * N * str :=
  match s with
  | c :: s' =>
      match decimal c with
      | Some d => read_digits s' (acc * 10 + d) (cnt + 1)
      | None => (acc, cnt, s)
      end
  | [] => (acc, cnt, [])
  end.

Definition py_float (s : str) : result float :=
  let '(m1, n1, r1) := read_digits s 0 0 in
  match r1 with
  | [] => if n1 =? 0 then Raise ValueError else Ok (float_of_decimal m1 0)
  | c :: r2 =>
      if c =? 46 then
        let '(m2, n2, r3) := read_digits r2 m1 0 in
        match r3 with
        | [] => if n1 + n2 =? 0 then Raise ValueError
                else Ok (float_of_decimal m2 n2)
        | _ :: _ => Raise ValueError
        end
      else Raise ValueError
  end.

(** [int(s)] on a run of decimal digits. *)
Definition py_int (s : str) : result Z :=
  let '(m, n, r) := read_digits s 0 0 in
  match r with
  | [] => if n =? 0 then Raise ValueError else Ok (Z.of_N m)
  | _ :: _ => Raise ValueError
  end.

End Float.

(** ** Regular expressions

    The fragment of Python's [re] that the parser's patterns are written in:
    literals, [.], the classes [\d], [\w], [\s], [\S], bracketed sets and
    their complements, greedy repetition of a one-character item ([+], [*],
    [?], [{n}]), concatenation, alternation, numbered capture groups and the
    anchors [^] and [$]. *)

Inductive set_item : Type :=
| SChar (c : char)          (** a literal member *)
| SRange (lo hi : char)     (** [lo-hi] *)
| SDigit                    (** [\d] *)
| SWord.                    (** [\w] *)

Inductive atom : Type :=
| ALit (c : char)           (** a literal character *)
| AAny                      (** [.]: anything but a newline *)
| ADigit                    (** [\d] *)
| AWord                     (** [\w] *)
| ASpace                    (** [\s] *)
| ANotSpace                 (** [\S] *)
| ASet (items : list set_item)      (** [[...]] *)
| ANotSet (items : list set_item).  (** [[^...]] *)

Inductive regex : Type :=
| REmpty
| RAtom (a : atom)
| RRep (a : atom) (lo : nat) (hi : option nat)  (** greedy [a{lo,hi}] *)
| RSeq (r1 r2 : regex)
| RAlt (r1 r2 : regex)
| RGroup (i : nat) (r : regex)                  (** the [i]-th [( )] *)
| RBol                                          (** [^] *)
| REol.                                         (** [$] *)

Definition plus (a : atom) : regex := RRep a 1 None.
Definition star (a : atom) : regex := RRep a 0 None.
Definition opt (a : atom) : regex := RRep a 0 (Some 1%nat).
Definition times (a : atom) (n : nat) : regex := RRep a n (Some n).

(** *** Pattern syntax

    [compile] reads a pattern as the source spells it, in the fragment
    above.  Groups are numbered by their opening parenthesis, from 1. *)

Module Syntax.

(** An escape: [\d], [\w], [\s] and [\S] are classes, an escaped
    punctuation character is that character, an escaped letter or digit
    of another kind is outside the fragment. *)
Definition escape (c : char) : option atom :=
  if c =? chr "d" then Some ADigit
  else if c =? chr "w" then Some AWord
  else if c =? chr "s" then Some ASpace
  else if c =? chr "S" then Some ANotSpace
  else if between 48 57 c || between 65 90 c || between 97 122 c then None
  else Some (ALit c).

(** The members of a bracketed set, up to the closing bracket. *)
Fixpoint set_items (s : str) (acc : list set_item) : option (list set_item * str) :=
  match s with
  | [] => None
  | c :: s' =>
      if c =? chr "]" then Some (rev acc, s')
      else if c =? chr "\" then
        match s' with
        | d :: s'' =>
            match escape d with
            | Some ADigit => set_items s'' (SDigit :: acc)
            | Some AWord => set_items s'' (SWord :: acc)
            | Some (ALit x) => set_items s'' (SChar x :: acc)
            | _ => None
            end
        | [] => None
        end
      else
        match s' with
        | dash :: hi :: s'' =>
            if (dash =? chr "-") && negb (hi =? chr "]")
            then set_items s'' (SRange c hi :: acc)
            else set_items s' (SChar c :: acc)
        | _ => set_items s' (SChar c :: acc)
        end
  end.

(** One item that matches a single character. *)
Definition one_char (s : str) : option (atom * str) :=
  match s with
  | [] => None
  | c :: s' =>
      if c =? chr "." then Some (AAny, s')
      else if c =? chr "[" then
        match s' with
        | x :: s'' =>
            if x =? chr "^"
            then match set_items s'' [] with
                 | Some (items, rest) => Some (ANotSet items, rest)
                 | None => None
                 end
            else match set_items s' [] with
                 | Some (items, rest) => Some (ASet items, rest)
                 | None => None
                 end
        | [] => None
        end
      else if c =? chr "\" then
        match s' with
        | d :: s'' =>
            match escape d with
            | Some a => Some (a, s'')
            | None => None
            end
        | [] => None
        end
      else if existsb (N.eqb c) (u "+*?{}") then None
      else Some (ALit c, s')
  end.

(** The count of [{n}], up to the closing brace. *)
Fixpoint count (s : str) (acc : nat) : option (nat * str) :=
  match s with
  | [] => None
  | c :: s' =>
      if c =? chr "}" then Some (acc, s')
      else if between 48 57 c
           then count s' (10 * acc + N.to_nat (c - 48))%nat
           else None
  end.

(** The quantifier that follows a one-character item, if any. *)
Definition quantified (a : atom) (s : str) : option (regex * str) :=
  match s with
  | c :: s' =>
      if c =? chr "+" then Some (plus a, s')
      else if c =? chr "*" then Some (star a, s')
      else if c =? chr "?" then Some (opt a, s')
      else if c =? chr "{" then
        match count s' O with
        | Some (n, rest) => Some (times a n, rest)
        | None => None
        end
      else Some (RAtom a, s)
  | [] => Some (RAtom a, [])
  end.

Definition followed_by (r1 r2 : regex) : regex :=
  match r2 with
  | REmpty => r1
  | _ => RSeq r1 r2
  end.

(** [alternatives fuel s n] reads [a|b|...], and [sequence fuel s n] one
    alternative, up to a [|], a [)] or the end of the pattern; [n] is the
    number of the next group.  Both answer the pattern read, what is left
    of [s] and the number of the next group. *)
Fixpoint alternatives (fuel : nat) (s : str) (n : nat) : option (regex * str * nat) :=
  match fuel with
  | O => None
  | S fuel' =>
      match sequence fuel' s n with
      | Some (r1, c :: rest, n1) =>
          if c =? chr "|" then
            match alternatives fuel' rest n1 with
            | Some (r2, rest2, n2) => Some (RAlt r1 r2, rest2, n2)
            | None => None
            end
          else Some (r1, c :: rest, n1)
      | other => other
      end
  end
with sequence (fuel : nat) (s : str) (n : nat) : option (regex * str * nat) :=
  match fuel with
  | O => None
  | S fuel' =>
      let continue (item : regex) (rest : str) (n' : nat) :=
        match sequence fuel' rest n' with
        | Some (r, rest', n'') => Some (followed_by item r, rest', n'')
        | None => None
        end in
      match s with
      | [] => Some (REmpty, [], n)
      | c :: s' =>
          if (c =? chr "|") || (c =? chr ")") then Some (REmpty, s, n)
          else if c =? chr "(" then
            match alternatives fuel' s' (S n) with
            | Some (r, d :: rest, n') =>
                if d =? chr ")" then continue (RGroup n r) rest n' else None
            | _ => None
            end
          else if c =? chr "^" then continue RBol s' n
          else if c =? chr "$" then continue REol s' n
          else
            match one_char s with
            | Some (a, rest) =>
                match quantified a rest with
                | Some (item, rest') => continue item rest' n
                | None => None
                end
            | None => None
            end
      end
  end.

(** [re.compile(pattern)]; [None] for a pattern outside the fragment. *)
Definition compile (pattern : str) : option regex :=
  match alternatives (2 * List.length pattern + 2) pattern 1 with
  | Some (r, [], _) => Some r
  | _ => None
  end.

End Syntax.

(** The pattern that the raw string [r'...'] spells.  A string outside the
    fragment would give a pattern that matches nothing; [patterns_compile]
    below shows that every pattern of the parser is inside. *)
Definition re (pattern : string) : regex :=
  match Syntax.compile (u pattern) with
  | Some r => r
  | None => RAtom (ASet [])
  end.

(** The groups of a match, most recently closed first. *)
Definition groups := list (nat * str).

Fixpoint group (m : groups) (i : nat) : str :=
  match m with
  | [] => []
  | (j, v) :: m' => if Nat.eqb i j then v else group m' i
  end.

Section Matcher.
Context {U : UnicodeData}.

Definition is_word (c : char) : bool := is_alnum c || (c =? 95).

Definition item_ok (i : set_item) (c : char) : bool :=
  match i with
  | SChar x => c =? x
  | SRange lo hi => between lo hi c
  | SDigit => is_decimal c
  | SWord => is_word c
  end.

Definition atom_ok (a : atom) (c : char) : bool :=
  match a with
  | ALit x => c =? x
  | AAny => negb (c =? 10)
  | ADigit => is_decimal c
  | AWord => is_word c
  | ASpace => is_space c
  | ANotSpace => negb (is_space c)
  | ASet items => existsb (fun i => item_ok i c) items
  | ANotSet items => negb (existsb (fun i => item_ok i c) items)
  end.

Definition may_take (hi : option nat) : bool :=
  match hi with
  | Some O => false
  | _ => true
  end.

Section Backtracking.
Variable A : Type.

(** Greedy repetition: take as many characters as [p] and [hi] allow, then
    give them back one at a time, down to [lo], until the rest of the
    pattern [k] matches. *)
Fixpoint rep (p : char -> bool) (lo : nat) (hi : option nat) (s : str)
             (k : str -> option A) : option A :=
  let stop := match lo with O => k s | S _ => None end in
  match s with
  | c :: s' =>
      if p c && may_take hi then
        match rep p (Nat.pred lo) (option_map Nat.pred hi) s' k with
        | Some x => Some x
        | None => stop
        end
      else stop
  | [] => stop
  end.

(** [rmatch n0 r s g k]: match [r] at the front of [s], [n0] being the length
    of the whole subject and [g] the groups closed so far; [k] is the rest
    of the pattern.  Alternatives are tried left to right and the first
    overall success is the answer, as in a backtracking engine. *)
Fixpoint rmatch (n0 : nat) (r : regex) (s : str) (g : groups)
                (k : str -> groups -> option A) : option A :=
  match r with
  | REmpty => k s g
  | RAtom a =>
      match s with
      | c :: s' => if atom_ok a c then k s' g else None
      | [] => None
      end
  | RRep a lo hi => rep (atom_ok a) lo hi s (fun s' => k s' g)
  | RSeq r1 r2 => rmatch n0 r1 s g (fun s' g' => rmatch n0 r2 s' g' k)
  | RAlt r1 r2 =>
      match rmatch n0 r1 s g k with
      | Some x => Some x
      | None => rmatch n0 r2 s g k
      end
  | RGroup i r1 =>
      rmatch n0 r1 s g
        (fun s' g' => k s' ((i, firstn (List.length s - List.length s') s) :: g'))
  | RBol => if Nat.eqb (List.length s) n0 then k s g else None
  | REol =>
      match s with
      | [] => k s g
      | [c] => if c =? 10 then k s g else None
      | _ => None
      end
  end.

End Backtracking.

(** [re.match(pattern, s)]: the groups of the match, if any. *)
Definition re_match (pattern : regex) (s : str) : option groups :=
  rmatch (List.length s) pattern s [] (fun _ g => Some g).

(** [re.search(pattern, s)]: the leftmost match. *)
Fixpoint search_from (n0 : nat) (pattern : regex) (s : str) : option groups :=
  match rmatch n0 pattern s [] (fun _ g => Some g) with
  | Some g => Some g
  | None =>
      match s with
      | [] => None
      | _ :: s' => search_from n0 pattern s'
      end
  end.

Definition re_search (pattern : regex) (s : str) : option groups :=
  search_from (List.length s) pattern s.

(** [re.sub(pattern, repl, s)] for a literal [repl]: from left to right,
    every match is replaced by [repl]; where the pattern matches the empty
    string [repl] is inserted and the scan moves on by one character.
    [skip] counts the characters of the match just replaced that are still
    to be passed over. *)
Fixpoint sub_from (n0 : nat) (pattern : regex) (repl : str) (skip : nat)
                  (s : str) : str :=
  match skip with
  | S skip' =>
      match s with
      | [] => []
      | _ :: s' => sub_from n0 pattern repl skip' s'
      end
  | O =>
      match rmatch n0 pattern s [] (fun rest _ => Some rest) with
      | Some rest =>
          match s with
          | [] => repl
          | c :: s' =>
              match (List.length s - List.length rest)%nat with
              | O => repl ++ c :: sub_from n0 pattern repl O s'
              | S skip' => repl ++ sub_from n0 pattern repl skip' s'
              end
          end
      | None =>
          match s with
          | [] => []
          | c :: s' => c :: sub_from n0 pattern repl O s'
          end
      end
  end.

Definition re_sub (pattern : regex) (repl s : str) : str :=
  sub_from (List.length s) pattern repl O s.

End Matcher.

(** ** [datetime.strptime]

    The library function is modelled after CPython's [_strptime]: the format
    is turned into a regular expression, one group per directive, the string
    must match it with nothing left over, the groups are read with [int] and
    the [datetime] constructor checks the ranges.  Each failure is a
    [ValueError]. *)

Local Open Scope Z_scope.

Record py_datetime : Type := {
  year : Z; month : Z; day : Z; hour : Z; minute : Z; second : Z
}.

Definition is_leap (y : Z) : bool :=
  (y mod 4 =? 0) && (negb (y mod 100 =? 0) || (y mod 400 =? 0)).

Definition days_in_month (y m : Z) : Z :=
  if m =? 2 then (if is_leap y then 29 else 28)
  else if (m =? 4) || (m =? 6) || (m =? 9) || (m =? 11) then 30
  else 31.

(** [datetime(y, m, d, H, M, S)] *)
Definition make_datetime (y mo d h mi s : Z) : result py_datetime :=
  if (1 <=? y) && (y <=? 9999) && (1 <=? mo) && (mo <=? 12)
     && (1 <=? d) && (d <=? days_in_month y mo)
     && (0 <=? h) && (h <=? 23) && (0 <=? mi) && (mi <=? 59)
     && (0 <=? s) && (s <=? 59)
  then Ok {| year := y; month := mo; day := d; hour := h; minute := mi; second := s |}
  else Raise ValueError.

Local Open Scope N_scope.

(** The regular expression of a directive, as [_strptime] spells it; its
    group is numbered by the directive's letter. *)
Definition directive (d : char) : option regex :=
  let named (r : regex) := Some (RGroup (N.to_nat d) r) in
  if d =? chr "Y" then named (re "\d\d\d\d")
  else if d =? chr "m" then named (re "1[0-2]|0[1-9]|[1-9]")
  else if d =? chr "d" then named (re "3[0-1]|[1-2]\d|0[1-9]|[1-9]| [1-9]")
  else if d =? chr "H" then named (re "2[0-3]|[0-1]\d|\d")
  else if d =? chr "M" then named (re "[0-5]\d|\d")
  else if d =? chr "S" then named (re "6[0-1]|[0-5]\d|\d")
  else None.

(** A space in the format stands for any run of white space, any other
    character for itself; [None] for a directive the model does not know. *)
Fixpoint format_regex (fmt : str) : option regex :=
  match fmt with
  | [] => Some REmpty
  | c :: fmt' =>
      if c =? chr "%" then
        match fmt' with
        | d :: fmt'' =>
            match directive d, format_regex fmt'' with
            | Some r, Some rest => Some (RSeq r rest)
            | _, _ => None
            end
        | [] => None
        end
      else
        match format_regex fmt' with
        | Some rest =>
            Some (RSeq (if c =? 32 then plus ASpace else RAtom (ALit c)) rest)
        | None => None
        end
  end.

Fixpoint group_opt (m : groups) (i : nat) : option str :=
  match m with
  | [] => None
  | (j, v) :: m' => if Nat.eqb i j then Some v else group_opt m' i
  end.

Section Strptime.
Context {U : UnicodeData}.

(** The field of directive [d], or [default] when the format has no such
    directive. *)
Definition field (m : groups) (d : string) (default : Z) : result Z :=
  match group_opt m (N.to_nat (chr d)) with
  | Some v => py_int (strip v)
  | None => Ok default
  end.

Definition strptime (date_string format : str) : result py_datetime :=
  match format_regex format with
  | None => Raise ValueError
  | Some r =>
      match rmatch (List.length date_string) r date_string []
                   (fun rest g => Some (rest, g)) with
      | None => Raise ValueError
      | Some (_ :: _, _) => Raise ValueError
      | Some ([], g) =>
          y <- field g "Y" 1900%Z ;;
          mo <- field g "m" 1%Z ;;
          d <- field g "d" 1%Z ;;
          h <- field g "H" 0%Z ;;
          mi <- field g "M" 0%Z ;;
          s <- field g "S" 0%Z ;;
          make_datetime y mo d h mi s
      end
  end.

End Strptime.

(** ** [BaseTransactionParser] *)

(** Python's truth value of a string: non-empty. *)
Definition truthy (s : str) : bool :=
  match s with
  | [] => false
  | _ :: _ => true
  end.

(** The dictionary [extract_amount] returns. *)
Record amount_info : Type := {
  info_amount : option float;
  info_currency : str
}.

(** [try: body except ValueError: handler] *)
Definition try_except_ValueError {A : Type} (body : result A) (handler : result A)
  : result A :=
  match body with
  | Raise ValueError => handler
  | other => other
  end.

(** The patterns of [parse_datetime], [extract_amount] and [clean_field]. *)
Definition iso_guard : regex :=
  Eval vm_compute in re "^\d{4}-\d{2}-\d{2} \d{2}:\d{2}:\d{2}$".

Definition dmy_guard : regex :=
  Eval vm_compute in re "^\d{2}/\d{2}/\d{4} \d{2}:\d{2}:\d{2}$".

Definition not_amount_char : regex :=
  Eval vm_compute in re "[^\d.,€£$]".

Definition number_run : regex :=
  Eval vm_compute in re "([\d,]+\.?\d*)".

Definition spaces : regex :=
  Eval vm_compute in re "\s+".

(** The [mapping] of [get_currency_code], a dictionary in insertion order. *)
Definition mapping : list (str * str) :=
  [ (u "€", u "EUR"); (u "â‚¬", u "EUR"); (u "EUR", u "EUR");
    (u "£", u "GBP"); (u "Â£", u "GBP"); (u "GBP", u "GBP");
    (u "$", u "USD"); (u "USD", u "USD") ].

(** [d.get(key, default)] *)
Fixpoint dict_get (d : list (str * str)) (key default : str) : str :=
  match d with
  | [] => default
  | (k, v) :: d' => if str_eqb key k then v else dict_get d' key default
  end.

(** The [replacements] of [clean_field], in insertion order. *)
Definition replacements : list (str * str) :=
  [ (u "â‚¬", u "€"); (u "Â£", u "£"); (u "Â", []); ([8218], []) ].

Section BaseTransactionParser.
Context {U : UnicodeData}.

(** The two [print] calls of the module write to standard output and
    return; the model leaves the output out. *)

Definition parse_datetime (date_str : str) : result (option py_datetime) :=
  if negb (truthy date_str) || str_eqb (lower date_str) (u "none") then Ok None
  else
    try_except_ValueError
      (match re_match iso_guard date_str with
       | Some _ =>
           d <- strptime date_str (u "%Y-%m-%d %H:%M:%S") ;; Ok (Some d)
       | None =>
           match re_match dmy_guard date_str with
           | Some _ =>
               d <- strptime date_str (u "%d/%m/%Y %H:%M:%S") ;; Ok (Some d)
           | None => Ok None
           end
       end)
      (Ok None).

Definition extract_amount (amount_str : str) : result amount_info :=
  if negb (truthy amount_str) then
    Ok {| info_amount := None; info_currency := u "GBP" |}
  else
    let amount_clean := re_sub not_amount_char [] amount_str in
    match re_search number_run amount_clean with
    | Some number_match =>
        amount <- py_float (replace (group number_match 1) (u ",") []) ;;
        let currency :=
          if contains (u "€") amount_str || contains (u "â‚¬") amount_str
          then u "EUR"
          else if contains (u "£") amount_str || contains (u "Â£") amount_str
          then u "GBP"
          else if contains (u "$") amount_str
          then u "USD"
          else u "GBP" in
        Ok {| info_amount := Some amount; info_currency := currency |}
    | None => Ok {| info_amount := None; info_currency := u "GBP" |}
    end.

Definition get_currency_code (symbol : option str) : str :=
  match symbol with
  | None => u "GBP"
  | Some s =>
      if negb (truthy s) then u "GBP"
      else dict_get mapping (strip s) (u "GBP")
  end.

Definition clean_field (field : str) : option str :=
  if negb (truthy field) || str_in (lower field) [u "none"; u "null"; []]
  then None
  else
    let field' :=
      fold_left (fun f '(bad, good) => replace f bad good) replacements field in
    Some (strip (re_sub spaces (u " ") field')).

End BaseTransactionParser.

(** ** [TransactionCleaner]: the nine grammar patterns

    Each pattern is the raw string of the source. *)

(** Pattern 1, double colon. *)
Definition pattern1 : regex :=
  Eval vm_compute in
    re "^(\d{4}-\d{2}-\d{2} \d{2}:\d{2}:\d{2})::(\w+)::([\w-]+)::([\d,.]+)::([^:]+)::(.+)$".

(** Pattern 2, pipe separated. *)
Definition pattern2 : regex :=
  Eval vm_compute in
    re "^usr:(\w+)\|([\w-]+)\|([€£$]?[\d,.]+)\|([^|]+)\|(\d{4}-\d{2}-\d{2} \d{2}:\d{2}:\d{2})\|(.+)$".

(** Pattern 3, arrow and brackets. *)
Definition pattern3 : regex :=
  Eval vm_compute in
    re "^(\d{4}-\d{2}-\d{2} \d{2}:\d{2}:\d{2}) >> \[(\w+)\] did ([\w-]+) - amt=([€£$]?[\d,.]+) - ([^/]+) // dev:(.+)$".

(** Pattern 4, pipes with [user], [txn] and [device] labels. *)
Definition pattern4 : regex :=
  Eval vm_compute in
    re "^(\d{4}-\d{2}-\d{2} \d{2}:\d{2}:\d{2}) \| user: (\w+) \| txn: ([\w-]+) of ([€£$]?[\d,.]+) from ([^|]+) \| device: (.+)$".

(** Pattern 5, dashes with [user], [action], [ATM] and [device] labels. *)
Definition pattern5 : regex :=
  Eval vm_compute in
    re "^(\d{4}-\d{2}-\d{2} \d{2}:\d{2}:\d{2}) - user=(\w+) - action=([\w-]+) ([€£$]?[\d,.]+) - ATM: ([^-]+) - device=(.+)$".

(** Pattern 6, triple colon with asterisks, the symbol before the amount. *)
Definition pattern6 : regex :=
  Eval vm_compute in
    re "^(\d{2}/\d{2}/\d{4} \d{2}:\d{2}:\d{2}) ::: (\w+) \*\*\* ([\w-]+) ::: amt:([€£$]?[\d,.]+) @ ([^<]+) <([^>]+)>$".

(** Pattern 7, space separated. *)
Definition pattern7 : regex :=
  Eval vm_compute in
    re "^(\w+) (\d{4}-\d{2}-\d{2} \d{2}:\d{2}:\d{2}) ([\w-]+) ([\d,.]+) (\S+) (.+)$".

(** Pattern 8, triple colon, the symbol after the amount. *)
Definition pattern8 : regex :=
  Eval vm_compute in
    re "^(\d{2}/\d{2}/\d{4} \d{2}:\d{2}:\d{2}) ::: (\w+) \*\*\* ([\w-]+) ::: amt:([\d,.]+)([€£$]) @ ([^<]+) <([^>]+)>$".

(** Pattern 9, triple colon, the symbol after the amount, possibly
    mis-decoded. *)
Definition pattern9 : regex :=
  Eval vm_compute in
    re "^(\d{2}/\d{2}/\d{4} \d{2}:\d{2}:\d{2}) ::: (\w+) \*\*\* ([\w-]+) ::: amt:([\d,.]+)(â‚¬|€|£|Â£|\$) @ ([^<]+) <([^>]+)>$".

(** The record of one parsed line: the dictionary [record] with its nine
    keys. *)
Record record : Type := {
  row_id : Z;
  original_log : str;
  datetime : option py_datetime;
  user_id : option str;
  transaction_type : option str;
  amount : option float;
  currency : option str;
  location : option str;
  device : option str
}.

(** [record.update({...})] of the seven parsed fields; [row_id] and
    [original_log] stay. *)
Definition update (r : record) (dt : option py_datetime) (user type : str)
    (amt : option float) (cur : str) (loc dev : option str) : record :=
  {| row_id := row_id r;
     original_log := original_log r;
     datetime := dt;
     user_id := Some user;
     transaction_type := Some type;
     amount := amt;
     currency := Some cur;
     location := loc;
     device := dev |}.

(** The record every line starts from: [row_id] and [original_log] set, the
    seven other keys [None]. *)
Definition blank (line : str) (row_id : Z) : record :=
  {| row_id := row_id; original_log := line; datetime := None;
     user_id := None; transaction_type := None; amount := None;
     currency := None; location := None; device := None |}.

Section TransactionCleaner.
Context {U : UnicodeData}.

(** The fields each pattern binds, in the order in which the dictionary
    passed to [record.update] evaluates them.  An exception raised on the
    way leaves the function. *)

Definition fields1 (rec : record) (m : groups) : result record :=
  dt <- parse_datetime (group m 1) ;;
  a <- extract_amount (group m 4) ;;
  c <- extract_amount (group m 4) ;;
  Ok (update rec dt (group m 2) (group m 3) (info_amount a) (info_currency c)
             (clean_field (group m 5)) (clean_field (group m 6))).

Definition fields2 (rec : record) (m : groups) : result record :=
  amount_info <- extract_amount (group m 3) ;;
  let loc := clean_field (group m 4) in
  dt <- parse_datetime (group m 5) ;;
  Ok (update rec dt (group m 1) (group m 2)
             (info_amount amount_info) (info_currency amount_info)
             loc (clean_field (group m 6))).

Definition fields3 (rec : record) (m : groups) : result record :=
  amount_info <- extract_amount (group m 4) ;;
  dt <- parse_datetime (group m 1) ;;
  Ok (update rec dt (group m 2) (replace (group m 3) (u "-") (u "_"))
             (info_amount amount_info) (info_currency amount_info)
             (clean_field (group m 5)) (clean_field (group m 6))).

(** Patterns 4 and 5 bind the same groups to the same fields. *)
Definition fields45 (rec : record) (m : groups) : result record :=
  amount_info <- extract_amount (group m 4) ;;
  dt <- parse_datetime (group m 1) ;;
  Ok (update rec dt (group m 2) (group m 3)
             (info_amount amount_info) (info_currency amount_info)
             (clean_field (group m 5)) (clean_field (group m 6))).

Definition fields6 (rec : record) (m : groups) : result record :=
  amount_info <- extract_amount (group m 4) ;;
  dt <- parse_datetime (group m 1) ;;
  Ok (update rec dt (group m 2) (lower (group m 3))
             (info_amount amount_info) (info_currency amount_info)
             (clean_field (group m 5)) (clean_field (group m 6))).

Definition fields7 (rec : record) (m : groups) : result record :=
  dt <- parse_datetime (group m 2) ;;
  amt <- py_float (replace (group m 4) (u ",") []) ;;
  Ok (update rec dt (group m 1) (group m 3) (Some amt) (u "GBP")
             (clean_field (group m 5)) (clean_field (group m 6))).

Definition fields8 (rec : record) (m : groups) : result record :=
  amt <- py_float (replace (group m 4) (u ",") []) ;;
  let currency_symbol := group m 5 in
  let cur := get_currency_code (Some currency_symbol) in
  dt <- parse_datetime (group m 1) ;;
  Ok (update rec dt (group m 2) (lower (group m 3)) (Some amt) cur
             (clean_field (group m 6)) (clean_field (group m 7))).

Definition fields9 (rec : record) (m : groups) : result record :=
  amt <- py_float (replace (group m 4) (u ",") []) ;;
  let currency_symbol := group m 5 in
  let cleaned_currency := clean_field currency_symbol in
  let cur := get_currency_code cleaned_currency in
  dt <- parse_datetime (group m 1) ;;
  Ok (update rec dt (group m 2) (lower (group m 3)) (Some amt) cur
             (clean_field (group m 6)) (clean_field (group m 7))).

(** [match = re.match(p, line)], then [if match: ... return record] or go
    on to the next pattern. *)
Notation "'try_pattern' p 'on' line 'binding' f 'otherwise' next" :=
  (match re_match p line with
   | Some m => r <- f m ;; Ok (Some r)
   | None => next
   end)
  (at level 10, p at level 9, line at level 9, f at level 9,
   next at level 200, only parsing).

(** The body of the [try] statement: the record of the first pattern that
    matches, [None] when the control falls out of the last [if]. *)
Definition try_patterns (line : str) (rec : record) : result (option record) :=
  try_pattern pattern1 on line binding (fields1 rec) otherwise
  try_pattern pattern2 on line binding (fields2 rec) otherwise
  try_pattern pattern3 on line binding (fields3 rec) otherwise
  try_pattern pattern4 on line binding (fields45 rec) otherwise
  try_pattern pattern5 on line binding (fields45 rec) otherwise
  try_pattern pattern6 on line binding (fields6 rec) otherwise
  try_pattern pattern7 on line binding (fields7 rec) otherwise
  try_pattern pattern8 on line binding (fields8 rec) otherwise
  try_pattern pattern9 on line binding (fields9 rec) otherwise
  Ok None.

Definition parse_transaction_line (line : str) (row_id : Z) : option record :=
  if negb (truthy line) || str_in line [quoted_empty; u "MALFORMED_LOG"] then None
  else
    let rec := blank line row_id in
    match try_patterns line rec with
    | Ok found => found          (* a record, or no pattern matched *)
    | Raise _ => None            (* except Exception *)
    end.

End TransactionCleaner.

(** *** [clean_transaction_logs] *)

(** [df[col].fillna(value)] on one cell. *)
Definition fillna {A : Type} (value : A) (cell : option A) : option A :=
  match cell with
  | Some v => Some v
  | None => Some value
  end.

(** The post-processing of one row.  [pd.to_datetime] and [pd.to_numeric]
    with [errors='coerce'] keep the [datetime] and [float] cells they find
    and turn [None] into the column's null, which the model writes [None];
    [astype(int)] keeps the integers.  That [pd.to_datetime] keeps every
    [datetime] is pandas from version 3 on; with the nanosecond resolution
    of the versions before, it turns a timestamp outside the years 1677 to
    2262 into the null as well.  The repository pins no version, and no
    property below reads the [datetime] column of a data set. *)
Definition post_process (r : record) : record :=
  {| row_id := row_id r;
     original_log := original_log r;
     datetime := datetime r;
     user_id := user_id r;
     transaction_type := transaction_type r;
     amount := amount r;
     currency := fillna (u "USD") (currency r);
     location := fillna (u "Unknown") (location r);
     device := fillna (u "Unknown") (device r) |}.

Section CleanTransactionLogs.
Context {U : UnicodeData}.

(** [Path(p).read_text(encoding='utf-8')]: the file's text, or the error
    the file system raises. *)
Variable read_text : str -> result str.

(** The first statement: where the text comes from.  A path or a text
    that is [None] or empty is false in Python's [if]. *)
Definition raw_content (csv_file_path raw_data : option str) : result str :=
  match csv_file_path with
  | Some (c :: p) => read_text (c :: p)
  | _ =>
      match raw_data with
      | Some (c :: text) => Ok (c :: text)
      | _ => Raise ValueError
      end
  end.

(** The condition of the list comprehension. *)
Definition keep_line (line : str) : bool :=
  truthy (strip line)
  && negb (str_in (strip line) [quoted_empty; u "MALFORMED_LOG"; u "raw_log"])
  && negb (startswith (strip line) (u "raw_log")).

Definition valid_lines (raw : str) : list str :=
  map strip (filter keep_line (split raw 10)).

(** The loop over [enumerate(valid_lines)], [idx] being the index of the
    first line of [lines]. *)
Fixpoint parse_lines (idx : nat) (lines : list str) : list record :=
  match lines with
  | [] => []
  | line :: rest =>
      match parse_transaction_line line (Z.of_nat idx + 1) with
      | Some rec => rec :: parse_lines (S idx) rest
      | None => parse_lines (S idx) rest
      end
  end.

(** A data frame is the list of its rows. *)
Definition data_frame (cleaned_records : list record) : list record :=
  match cleaned_records with
  | [] => []                                   (* df.empty *)
  | _ :: _ => map post_process cleaned_records
  end.

Definition clean_transaction_logs (csv_file_path raw_data : option str)
  : result (list record) :=
  raw <- raw_content csv_file_path raw_data ;;
  Ok (data_frame (parse_lines 0 (valid_lines raw))).

End CleanTransactionLogs.

(** ** The grammar registry of the specification

    The specification describes the nine patterns as a registry of grammars
    in priority order, each with its bindings; the first grammar whose
    pattern matches the line decides.  [first_match] follows these words; it
    is compared with [parse_transaction_line] below. *)

Record grammar {U : UnicodeData} : Type := {
  priority : nat;
  pattern : regex;
  bindings : record -> groups -> result record
}.

Section Registry.
Context {U : UnicodeData}.

Definition registry : list grammar :=
  [ {| priority := 1; pattern := pattern1; bindings := fields1 |};
    {| priority := 2; pattern := pattern2; bindings := fields2 |};
    {| priority := 3; pattern := pattern3; bindings := fields3 |};
    {| priority := 4; pattern := pattern4; bindings := fields45 |};
    {| priority := 5; pattern := pattern5; bindings := fields45 |};
    {| priority := 6; pattern := pattern6; bindings := fields6 |};
    {| priority := 7; pattern := pattern7; bindings := fields7 |};
    {| priority := 8; pattern := pattern8; bindings := fields8 |};
    {| priority := 9; pattern := pattern9; bindings := fields9 |} ].

Fixpoint first_match (gs : list grammar) (line : str) : option (grammar * groups) :=
  match gs with
  | [] => None
  | g :: gs' =>
      match re_match (pattern g) line with
      | Some m => Some (g, m)
      | None => first_match gs' line
      end
  end.

(** What the caller sees of a grammar's bindings: the record, or nothing
    when an exception was raised. *)
Definition outcome (r : result record) : option record :=
  match r with
  | Ok rec => Some rec
  | Raise _ => None
  end.

(** The action token of a match: group 2 of pattern 2, group 3 of the
    others. *)
Definition action_token (g : grammar) (m : groups) : str :=
  if Nat.eqb (priority g) 2 then group m 2 else group m 3.

End Registry.



(** ** What a pattern reads, declaratively

    [reads r w rest]: the pattern [r] can read the characters [w] when
    [rest] follows them.  The relation leaves out the order in which the
    engine tries the possibilities and the groups it records; it is what a
    successful match of the engine implies. *)

Inductive reads {U : UnicodeData} : regex -> str -> str -> Prop :=
| reads_empty rest : reads REmpty [] rest
| reads_atom a c rest :
    atom_ok a c = true -> reads (RAtom a) [c] rest
| reads_rep a lo hi w rest :
    forallb (atom_ok a) w = true ->
    (lo <= List.length w)%nat ->
    (forall h, hi = Some h -> (List.length w <= h)%nat) ->
    reads (RRep a lo hi) w rest
| reads_seq r1 r2 w1 w2 rest :
    reads r1 w1 (w2 ++ rest) -> reads r2 w2 rest ->
    reads (RSeq r1 r2) (w1 ++ w2) rest
| reads_alt_l r1 r2 w rest : reads r1 w rest -> reads (RAlt r1 r2) w rest
| reads_alt_r r1 r2 w rest : reads r2 w rest -> reads (RAlt r1 r2) w rest
| reads_group i r w rest : reads r w rest -> reads (RGroup i r) w rest
| reads_bol rest : reads RBol [] rest
| reads_eol rest : rest = [] \/ rest = [10] -> reads REol [] rest.

(** [binds r w rest g g']: as [reads], and the groups [g] become [g'],
    every group of [r] recording what it read. *)
Inductive binds {U : UnicodeData} : regex -> str -> str -> groups -> groups -> Prop :=
| binds_empty rest g : binds REmpty [] rest g g
| binds_atom a c rest g :
    atom_ok a c = true -> binds (RAtom a) [c] rest g g
| binds_rep a lo hi w rest g :
    forallb (atom_ok a) w = true ->
    (lo <= List.length w)%nat ->
    (forall h, hi = Some h -> (List.length w <= h)%nat) ->
    binds (RRep a lo hi) w rest g g
| binds_seq r1 r2 w1 w2 rest g g1 g2 :
    binds r1 w1 (w2 ++ rest) g g1 -> binds r2 w2 rest g1 g2 ->
    binds (RSeq r1 r2) (w1 ++ w2) rest g g2
| binds_alt_l r1 r2 w rest g g' :
    binds r1 w rest g g' -> binds (RAlt r1 r2) w rest g g'
| binds_alt_r r1 r2 w rest g g' :
    binds r2 w rest g g' -> binds (RAlt r1 r2) w rest g g'
| binds_group i r w rest g g' :
    binds r w rest g g' -> binds (RGroup i r) w rest g ((i, w) :: g')
| binds_bol rest g : binds RBol [] rest g g
| binds_eol rest g : rest = [] \/ rest = [10] -> binds REol [] rest g g.

(** A text [float] is defined on in the model: decimal digits and dots. *)
Definition float_text {U : UnicodeData} (s : str) : Prop :=
  Forall (fun c => is_decimal c = true \/ c = chr ".") s.


(** The three currency codes. *)
Definition currency_codes : list str := [u "EUR"; u "GBP"; u "USD"].




(** The lines [parse_transaction_line] returns [None] for before it tries
    any pattern. *)
Definition sentinel (line : str) : bool :=
  negb (truthy line) || str_in line [quoted_empty; u "MALFORMED_LOG"].

(** The transaction type the specification gives a match of grammar [g]:
    lower case for the triple-colon grammars 6, 8 and 9, every ['-'] turned
    into ['_'] for the arrow grammar 3, and the action token itself for the
    others. *)
Definition spec_transaction_type {U : UnicodeData} (g : grammar) (m : groups) : str :=
  let token := action_token g m in
  if existsb (Nat.eqb (priority g)) [6; 8; 9]%nat then lower token
  else if Nat.eqb (priority g) 3
       then map (fun c => if c =? chr "-" then chr "_" else c) token
       else token.

(** What the bindings of grammar [g] leave in the record [r] they make
    from [rec] and the match [m]. *)
Definition well_bound {U : UnicodeData} (g : grammar) (rec : record)
    (m : groups) (r : record) : Prop :=
  row_id r = row_id rec
  /\ original_log r = original_log rec
  /\ (exists c, currency r = Some c /\ In c currency_codes)
  /\ transaction_type r = Some (spec_transaction_type g m).

(** ** Words of the properties of amounts and currencies *)

(** Whether [s] starts with a white-space character. *)
Definition head_space {U : UnicodeData} (s : str) : bool :=
  match s with
  | c :: _ => is_space c
  | [] => false
  end.

(** A pattern without [^]. *)
Fixpoint no_bol (r : regex) : bool :=
  match r with
  | RBol => false
  | RSeq r1 r2 | RAlt r1 r2 => no_bol r1 && no_bol r2
  | RGroup _ r1 => no_bol r1
  | _ => true
  end.

(** The characters [extract_amount] keeps: the decimal digits, the dot, the
    comma and the three currency symbols. *)
Definition amount_char {U : UnicodeData} (c : char) : bool :=
  is_decimal c || existsb (N.eqb c) (u ".,€£$").

(** The amount alone of what [extract_amount] answers. *)
Definition amount_of (r : result amount_info) : result (option float) :=
  match r with
  | Ok info => Ok (info_amount info)
  | Raise e => Raise e
  end.


(** [token] has no decimal digit and no comma. *)
Definition no_number {U : UnicodeData} (token : str) : Prop :=
  forall c, In c token -> is_decimal c = false /\ c <> chr ",".

(** ** Words of the properties of [clean_field] *)

Section WhiteSpace.
Context {U : UnicodeData}.

(** Every run of white space replaced by one space; [in_run] tells that the
    character before [s] was white space. *)
Fixpoint squeeze (in_run : bool) (s : str) : str :=
  match s with
  | [] => []
  | c :: s' =>
      if is_space c
      then (if in_run then squeeze true s' else 32 :: squeeze true s')
      else c :: squeeze false s'
  end.

(** Every white-space character of [s] is a space, and no white space
    follows it. *)
Fixpoint single_spaced (s : str) : bool :=
  match s with
  | [] => true
  | x :: s' =>
      (if is_space x then (x =? 32) && negb (head_space s') else true)
      && single_spaced s'
  end.

End WhiteSpace.

(** ** Words of the properties of records and data sets *)

(** Whether the pattern has a group numbered [i]. *)
Fixpoint closes (r : regex) (i : nat) : bool :=
  match r with
  | RSeq r1 r2 | RAlt r1 r2 => closes r1 i || closes r2 i
  | RGroup j r1 => Nat.eqb j i || closes r1 i
  | _ => false
  end.

(** The pattern inside the group numbered [i] that closes last, when it is
    not under an alternation. *)
Fixpoint group_pattern (r : regex) (i : nat) : option regex :=
  match r with
  | RSeq r1 r2 => if closes r2 i then group_pattern r2 i else group_pattern r1 i
  | RGroup j r1 => if Nat.eqb j i then Some r1 else group_pattern r1 i
  | _ => None
  end.

(** A string of word characters that is not empty. *)
Definition word {U : UnicodeData} (w : str) : Prop :=
  w <> [] /\ forallb is_word w = true.

(** The record [r] under another row identifier. *)
Definition with_row_id (row : Z) (r : record) : record :=
  {| row_id := row;
     original_log := original_log r;
     datetime := datetime r;
     user_id := user_id r;
     transaction_type := transaction_type r;
     amount := amount r;
     currency := currency r;
     location := location r;
     device := device r |}.

(** The record [r] with its row identifier moved [k] rows on. *)
Definition shift_row (k : nat) (r : record) : record :=
  with_row_id (row_id r + Z.of_nat k) r.

(** A line of the shape of pattern 7 whose user is [raw_log]. *)
Definition header_like_line : str :=
  u "raw_log 2023-05-14 14:05:31 top-up 500 Location Device".

(** A cell that is trimmed and single-spaced and has none of the two bad
    characters U+00C2 and U+201A. *)
Definition tidy {U : UnicodeData} (w : str) : Prop :=
  strip w = w /\ single_spaced w = true /\ ~ In 194 w /\ ~ In 8218 w.

(** The amount token of a match: group 3 of pattern 2, group 4 of the
    others. *)
Definition amount_token {U : UnicodeData} (g : grammar) (m : groups) : str :=
  if Nat.eqb (priority g) 2 then group m 3 else group m 4.

(** A line of pattern 2 whose amount is a pound sign and dots. *)
Definition dots_line : str :=
  u "usr:user123|top-up|£...|Location|2023-05-14 14:05:31|Device".

(** The example line that the source gives for each pattern, in its
    comments. *)
Definition example1 : str :=
  u "2023-05-14 14:05:31::user123::top-up::500::ATM Location::Device".
Definition example2 : str :=
  u "usr:user123|top-up|£500|Location|2023-05-14 14:05:31|Device".
Definition example3 : str :=
  u "2023-05-14 14:05:31 >> [user123] did top-up - amt=£500 - Location // dev:Device".
Definition example4 : str :=
  u "2023-05-14 14:05:31 | user: user123 | txn: top-up of £500 from Location | device: Device".
Definition example5 : str :=
  u "2023-05-14 14:05:31 - user=user123 - action=top-up £500 - ATM: Location - device=Device".
Definition example6 : str :=
  u "14/05/2023 14:05:31 ::: user123 *** TOP-UP ::: amt:£500 @ Location <Device>".
Definition example7 : str :=
  u "user123 2023-05-14 14:05:31 top-up 500 Location Device".
Definition example8 : str :=
  u "14/05/2023 14:05:31 ::: user123 *** TOP-UP ::: amt:500£ @ Location <Device>".
Definition example9 : str :=
  u "04/07/2025 00:41:51 ::: user1044 *** REFUND ::: amt:3491.94â‚¬ @ Manchester <Huawei P30>".

(** A line of the shape of pattern 7 whose amount is no number. *)
Definition bad_amount_line : str :=
  u "user123 2023-05-14 14:05:31 top-up 1.2.3 Location Device".

(** A raw text of five lines: a sentinel, a transaction, a line that no
    pattern matches, an empty line and a transaction. *)
Definition five_lines : str :=
  u "MALFORMED_LOG" ++ [10] ++ example7 ++ [10] ++ u "garbage" ++ [10]
  ++ [10] ++ example1.

(** * Properties *)

(** ** Strings *)

Lemma str_eqb_eq (a b : str) : str_eqb a b = true <-> a = b.
Proof.
  revert b. induction a as [|x a IH]; intros [|y b]; simpl;
    try (split; [discriminate|congruence]); [tauto|].
  rewrite andb_true_iff, N.eqb_eq, IH. split.
  - now intros [-> ->].
  - now intros [= -> ->].
Qed.


Lemma str_eqb_neq (a b : str) : str_eqb a b = false <-> a <> b.
Proof.
  rewrite <- str_eqb_eq. destruct (str_eqb a b); split; congruence.
Qed.

Example utf8_euro : u "€" = [8364].
Proof. reflexivity. Qed.

Example utf8_mojibake : u "â‚¬" = [226; 8218; 172].
Proof. reflexivity. Qed.

Example utf8_pound : u "£Â£" = [163; 194; 163].
Proof. reflexivity. Qed.

Example replace_ex : replace (u "a-b--c") (u "-") (u "_") = u "a_b__c".
Proof. reflexivity. Qed.

Example split_ex :
  split (u "ab" ++ [10] ++ [10] ++ u "c") 10 = [u "ab"; []; u "c"].
Proof. reflexivity. Qed.

(** Replacing a one-character string by another is a character-wise map:
    every occurrence changes and nothing else does. *)
Lemma replace_char (a b : char) (s : str) :
  replace s [a] [b] = map (fun c => if c =? a then b else c) s.
Proof.
  unfold replace. induction s as [|c s IH]; simpl; [reflexivity|].
  rewrite (N.eqb_sym a c), andb_true_r.
  destruct (c =? a); simpl; f_equal; exact IH.
Qed.

(** ** Patterns *)

Example compile_number_run :
  Syntax.compile (u "([\d,]+\.?\d*)")
  = Some (RGroup 1 (RSeq (plus (ASet [SDigit; SChar (chr ",")]))
                   (RSeq (opt (ALit (chr "."))) (star ADigit)))).
Proof. reflexivity. Qed.

Example compile_month :
  Syntax.compile (u "1[0-2]|0[1-9]|[1-9]")
  = Some (RAlt (RSeq (RAtom (ALit (chr "1")))
                     (RAtom (ASet [SRange (chr "0") (chr "2")])))
         (RAlt (RSeq (RAtom (ALit (chr "0")))
                     (RAtom (ASet [SRange (chr "1") (chr "9")])))
               (RAtom (ASet [SRange (chr "1") (chr "9")])))).
Proof. reflexivity. Qed.

Example compile_dash_in_set :
  Syntax.compile (u "[\w-]+[^-]")
  = Some (RSeq (plus (ASet [SWord; SChar (chr "-")]))
               (RAtom (ANotSet [SChar (chr "-")]))).
Proof. reflexivity. Qed.

(** Every pattern of the parser is inside the fragment: it is what
    [compile] reads from the raw string of the source. *)
Lemma patterns_compile :
  Syntax.compile (u "^\d{4}-\d{2}-\d{2} \d{2}:\d{2}:\d{2}$") = Some iso_guard
  /\ Syntax.compile (u "^\d{2}/\d{2}/\d{4} \d{2}:\d{2}:\d{2}$") = Some dmy_guard
  /\ Syntax.compile (u "[^\d.,€£$]") = Some not_amount_char
  /\ Syntax.compile (u "([\d,]+\.?\d*)") = Some number_run
  /\ Syntax.compile (u "\s+") = Some spaces
  /\ Syntax.compile (u "^(\d{4}-\d{2}-\d{2} \d{2}:\d{2}:\d{2})::(\w+)::([\w-]+)::([\d,.]+)::([^:]+)::(.+)$")
     = Some pattern1
  /\ Syntax.compile (u "^usr:(\w+)\|([\w-]+)\|([€£$]?[\d,.]+)\|([^|]+)\|(\d{4}-\d{2}-\d{2} \d{2}:\d{2}:\d{2})\|(.+)$")
     = Some pattern2
  /\ Syntax.compile (u "^(\d{4}-\d{2}-\d{2} \d{2}:\d{2}:\d{2}) >> \[(\w+)\] did ([\w-]+) - amt=([€£$]?[\d,.]+) - ([^/]+) // dev:(.+)$")
     = Some pattern3
  /\ Syntax.compile (u "^(\d{4}-\d{2}-\d{2} \d{2}:\d{2}:\d{2}) \| user: (\w+) \| txn: ([\w-]+) of ([€£$]?[\d,.]+) from ([^|]+) \| device: (.+)$")
     = Some pattern4
  /\ Syntax.compile (u "^(\d{4}-\d{2}-\d{2} \d{2}:\d{2}:\d{2}) - user=(\w+) - action=([\w-]+) ([€£$]?[\d,.]+) - ATM: ([^-]+) - device=(.+)$")
     = Some pattern5
  /\ Syntax.compile (u "^(\d{2}/\d{2}/\d{4} \d{2}:\d{2}:\d{2}) ::: (\w+) \*\*\* ([\w-]+) ::: amt:([€£$]?[\d,.]+) @ ([^<]+) <([^>]+)>$")
     = Some pattern6
  /\ Syntax.compile (u "^(\w+) (\d{4}-\d{2}-\d{2} \d{2}:\d{2}:\d{2}) ([\w-]+) ([\d,.]+) (\S+) (.+)$")
     = Some pattern7
  /\ Syntax.compile (u "^(\d{2}/\d{2}/\d{4} \d{2}:\d{2}:\d{2}) ::: (\w+) \*\*\* ([\w-]+) ::: amt:([\d,.]+)([€£$]) @ ([^<]+) <([^>]+)>$")
     = Some pattern8
  /\ Syntax.compile (u "^(\d{2}/\d{2}/\d{4} \d{2}:\d{2}:\d{2}) ::: (\w+) \*\*\* ([\w-]+) ::: amt:([\d,.]+)(â‚¬|€|£|Â£|\$) @ ([^<]+) <([^>]+)>$")
     = Some pattern9
  /\ Forall (fun d => directive (chr d) <> Some (RGroup (N.to_nat (chr d)) (RAtom (ASet []))))
            ["Y"; "m"; "d"; "H"; "M"; "S"]%string.
Proof.
  repeat split; try (vm_compute; reflexivity).
  repeat constructor; vm_compute; discriminate.
Qed.

(** ** The matcher reads what the pattern describes *)

Section MatcherSound.
Context {U : UnicodeData}.

Lemma rep_sound (A : Type) (p : char -> bool) (s : str) :
  forall (lo : nat) (hi : option nat) (k : str -> option A) (x : A),
    rep p lo hi s k = Some x ->
    exists w s',
      s = w ++ s' /\ forallb p w = true /\ (lo <= List.length w)%nat
      /\ (forall h, hi = Some h -> (List.length w <= h)%nat)
      /\ k s' = Some x.
Proof.
  induction s as [|c s IH]; intros lo hi k x H; simpl in H.
  - destruct lo; [|discriminate].
    exists [], []. repeat split; auto. simpl. intros; lia.
  - assert (Stop : (match lo with O => k (c :: s) | S _ => None end) = Some x ->
             exists w s', c :: s = w ++ s' /\ forallb p w = true
               /\ (lo <= List.length w)%nat
               /\ (forall h, hi = Some h -> (List.length w <= h)%nat)
               /\ k s' = Some x).
    { intros E. destruct lo; [|discriminate].
      exists [], (c :: s). repeat split; auto. simpl. intros; lia. }
    destruct (p c && may_take hi) eqn:Take; [|auto].
    destruct (rep p (Nat.pred lo) (option_map Nat.pred hi) s k) eqn:R; [|auto].
    injection H as ->.
    apply andb_prop in Take as [Pc Hi].
    destruct (IH _ _ _ _ R) as (w & s' & -> & Pw & Lo & Hb & K).
    exists (c :: w), s'. simpl. rewrite Pc, Pw.
    repeat split; auto; [lia|].
    intros h ->. simpl in Hb. destruct h; [discriminate|].
    specialize (Hb h eq_refl). simpl in Hb. lia.
Qed.

Lemma firstn_read (w rest : str) :
  firstn (List.length (w ++ rest) - List.length rest) (w ++ rest) = w.
Proof.
  rewrite length_app, Nat.add_sub.
  rewrite firstn_app, Nat.sub_diag, firstn_all. simpl. apply app_nil_r.
Qed.

Lemma rmatch_binds (A : Type) (n0 : nat) (r : regex) :
  forall (s : str) (g : groups) (k : str -> groups -> option A) (x : A),
    rmatch n0 r s g k = Some x ->
    exists w s' g', s = w ++ s' /\ binds r w s' g g' /\ k s' g' = Some x.
Proof.
  induction r as [|a|a lo hi|r1 IH1 r2 IH2|r1 IH1 r2 IH2|i r IH| |];
    intros s g k x H; simpl in H.
  - exists [], s, g. repeat split; auto. constructor.
  - destruct s as [|c s]; [discriminate|].
    destruct (atom_ok a c) eqn:E; [|discriminate].
    exists [c], s, g. repeat split; auto. now constructor.
  - apply rep_sound in H as (w & s' & -> & Pw & Lo & Hb & K).
    exists w, s', g. repeat split; auto. now constructor.
  - apply IH1 in H as (w1 & s1 & g1 & -> & R1 & H).
    apply IH2 in H as (w2 & s2 & g2 & -> & R2 & K).
    exists (w1 ++ w2), s2, g2. rewrite <- app_assoc.
    repeat split; auto. econstructor; eauto.
  - destruct (rmatch n0 r1 s g k) eqn:E.
    + injection H as ->. apply IH1 in E as (w & s' & g' & -> & R & K).
      exists w, s', g'. repeat split; auto. now apply binds_alt_l.
    + apply IH2 in H as (w & s' & g' & -> & R & K).
      exists w, s', g'. repeat split; auto. now apply binds_alt_r.
  - apply IH in H as (w & s' & g' & -> & R & K).
    rewrite firstn_read in K.
    eexists w, s', _. repeat split; eauto. now constructor.
  - destruct (Nat.eqb (List.length s) n0); [|discriminate].
    exists [], s, g. repeat split; auto. constructor.
  - destruct s as [|c [|d s]].
    + exists [], [], g. repeat split; auto. constructor. now left.
    + destruct (c =? 10) eqn:E; [|discriminate]. apply N.eqb_eq in E as ->.
      exists [], [10], g. repeat split; auto. constructor. now right.
    + discriminate.
Qed.

Lemma binds_reads (r : regex) (w rest : str) (g g' : groups) :
  binds r w rest g g' -> reads r w rest.
Proof.
  induction 1;
    [ constructor | now constructor | now constructor | now constructor
    | now apply reads_alt_l | now apply reads_alt_r | now constructor
    | constructor | now constructor ].
Qed.

Lemma rmatch_sound (A : Type) (n0 : nat) (r : regex) :
  forall (s : str) (g : groups) (k : str -> groups -> option A) (x : A),
    rmatch n0 r s g k = Some x ->
    exists w s' g', s = w ++ s' /\ reads r w s' /\ k s' g' = Some x.
Proof.
  intros s g k x H. apply rmatch_binds in H as (w & s' & g' & E & B & K).
  exists w, s', g'. eauto using binds_reads.
Qed.

Lemma re_match_binds (pattern : regex) (s : str) (m : groups) :
  re_match pattern s = Some m ->
  exists w s', s = w ++ s' /\ binds pattern w s' [] m.
Proof.
  intros H. apply rmatch_binds in H as (w & s' & g' & E & B & K).
  injection K as ->. eauto.
Qed.

Lemma search_from_binds (n0 : nat) (pattern : regex) (s : str) (m : groups) :
  search_from n0 pattern s = Some m ->
  exists skipped w s', s = skipped ++ w ++ s' /\ binds pattern w s' [] m.
Proof.
  induction s as [|c s IH]; simpl; intros H.
  - destruct (rmatch n0 pattern [] [] (fun _ g => Some g)) eqn:E; [|discriminate].
    injection H as ->.
    apply rmatch_binds in E as (w & s' & g' & E & B & K). injection K as ->.
    exists [], w, s'. auto.
  - destruct (rmatch n0 pattern (c :: s) [] (fun _ g => Some g)) eqn:E.
    + injection H as ->.
      apply rmatch_binds in E as (w & s' & g' & E & B & K). injection K as ->.
      exists [], w, s'. auto.
    + apply IH in H as (sk & w & s' & -> & B).
      exists (c :: sk), w, s'. auto.
Qed.


(** Deleting the matches of a pattern leaves characters of the string. *)
Lemma sub_from_delete_in (pattern : regex) (n0 : nat) (c : char) :
  forall (s : str) (skip : nat),
    In c (sub_from n0 pattern [] skip s) -> In c s.
Proof.
  induction s as [|x t IH]; intros skip H.
  - destruct skip; simpl in H; [|contradiction].
    destruct (rmatch n0 pattern [] [] (fun rest _ => Some rest));
      contradiction.
  - destruct skip as [|skip]; simpl in H; [|right; eapply IH; eauto].
    destruct (rmatch n0 pattern (x :: t) [] (fun rest _ => Some rest)) as [rest|].
    + destruct (List.length rest) as [|n]; simpl in H.
      * right. eapply IH; eauto.
      * destruct (List.length t - n)%nat; simpl in H.
        -- destruct H as [-> | H]; [now left|right; eapply IH; eauto].
        -- right. eapply IH; eauto.
    + destruct H as [-> | H]; [now left|right; eapply IH; eauto].
Qed.

Lemma re_sub_delete_in (pattern : regex) (s : str) (c : char) :
  In c (re_sub pattern [] s) -> In c s.
Proof. apply sub_from_delete_in. Qed.

Example re_sub_spaces :
  @re_sub plain_unicode spaces (u " ") (u " a   b  ") = u " a b ".
Proof. vm_compute. reflexivity. Qed.

Example re_sub_empty_matches :
  @re_sub plain_unicode (re "x*") (u "-") (u "abxd") = u "-a-b--d-".
Proof. vm_compute. reflexivity. Qed.

Lemma search_from_sound (n0 : nat) (pattern : regex) (s : str) (m : groups) :
  search_from n0 pattern s = Some m ->
  exists skipped w s', s = skipped ++ w ++ s' /\ reads pattern w s'.
Proof.
  induction s as [|c s IH]; simpl; intros H.
  - destruct (rmatch n0 pattern [] [] (fun _ g => Some g)) eqn:E; [|discriminate].
    apply rmatch_sound in E as (w & s' & _ & E & R & _).
    exists [], w, s'. auto.
  - destruct (rmatch n0 pattern (c :: s) [] (fun _ g => Some g)) eqn:E.
    + apply rmatch_sound in E as (w & s' & _ & E & R & _).
      exists [], w, s'. auto.
    + apply IH in H as (sk & w & s' & -> & R).
      exists (c :: sk), w, s'. auto.
Qed.

End MatcherSound.

(** ** Timestamps *)

Example strptime_ok :
  @strptime plain_unicode (u "2023-05-14 14:05:31") (u "%Y-%m-%d %H:%M:%S")
  = Ok {| year := 2023; month := 5; day := 14; hour := 14; minute := 5; second := 31 |}.
Proof. vm_compute. reflexivity. Qed.

Example strptime_dmy :
  @strptime plain_unicode (u "04/07/2025 00:41:51") (u "%d/%m/%Y %H:%M:%S")
  = Ok {| year := 2025; month := 7; day := 4; hour := 0; minute := 41; second := 51 |}.
Proof. vm_compute. reflexivity. Qed.

Example strptime_feb30 :
  @strptime plain_unicode (u "2023-02-30 10:00:00") (u "%Y-%m-%d %H:%M:%S")
  = Raise ValueError.
Proof. vm_compute. reflexivity. Qed.

Example strptime_second60 :
  @strptime plain_unicode (u "2023-02-10 10:00:60") (u "%Y-%m-%d %H:%M:%S")
  = Raise ValueError.
Proof. vm_compute. reflexivity. Qed.

Section Timestamps.
Context {U : UnicodeData}.











End Timestamps.

(** ** The two layouts *)

Ltac invert_reads :=
  repeat match goal with
         | H : reads (RSeq _ _) _ _ |- _ => inversion H; clear H; subst
         | H : reads (RAtom _) _ _ |- _ => inversion H; clear H; subst
         | H : reads (RRep _ _ _) _ _ |- _ => inversion H; clear H; subst
         | H : reads (RGroup _ _) _ _ |- _ => inversion H; clear H; subst
         | H : reads (RAlt _ _) _ _ |- _ => inversion H; clear H; subst
         | H : reads REmpty _ _ |- _ => inversion H; clear H; subst
         | H : reads RBol _ _ |- _ => inversion H; clear H; subst
         | H : reads REol _ _ |- _ => inversion H; clear H; subst
         end.


Section Layouts.
Context {U : UnicodeData}.



End Layouts.

(** ** A trailing newline

    [$] also matches before a newline that ends the string, so the guards of
    [parse_datetime] let a timestamp followed by a newline through;
    [strptime] then refuses it, because its pattern ends with the seconds
    and the newline is left unconverted. *)

Section TrailingNewline.
Context {U : UnicodeData}.






End TrailingNewline.

(** ** [parse_datetime] *)

Section ParseDatetime.
Context {U : UnicodeData}.




End ParseDatetime.



(** ** Amounts and currencies *)

Section Currency.
Context {U : UnicodeData}.

Lemma dict_get_mapping (key : str) :
  In (dict_get mapping key (u "GBP")) currency_codes.
Proof.
  unfold mapping; simpl.
  repeat match goal with
         | |- context [str_eqb key ?k] => destruct (str_eqb key k)
         end;
    vm_compute; auto.
Qed.

Lemma get_currency_code_closed (symbol : option str) :
  In (get_currency_code symbol) currency_codes.
Proof.
  unfold get_currency_code.
  destruct symbol as [s|]; [|vm_compute; auto].
  destruct (negb (truthy s)); [vm_compute; auto|].
  apply dict_get_mapping.
Qed.





Lemma extract_amount_closed (token : str) (r : amount_info) :
  extract_amount token = Ok r -> In (info_currency r) currency_codes.
Proof.
  unfold extract_amount. intros H.
  destruct (negb (truthy token)); [injection H as <-; vm_compute; auto|].
  destruct (re_search _ _); [|injection H as <-; vm_compute; auto].
  destruct (py_float _); simpl in H; [|discriminate].
  injection H as <-. simpl.
  destruct (_ || _); [vm_compute; auto|].
  destruct (_ || _); [vm_compute; auto|].
  destruct (contains _ _); vm_compute; auto.
Qed.


(** A number run starts with a decimal digit or a comma. *)
Lemma number_run_starts (w rest : str) :
  reads number_run w rest ->
  exists c w', w = c :: w' /\ (is_decimal c = true \/ c = 44).
Proof.
  intros H. unfold number_run in H.
  invert_reads.
  destruct w1 as [|c w1]; simpl in *; [lia|].
  exists c. eexists. split; [reflexivity|].
  apply andb_prop in H3 as [H3 _].
  apply orb_prop in H3 as [D | C]; [now left|right].
  rewrite orb_false_r in C. now apply N.eqb_eq.
Qed.

Lemma extract_amount_no_number (token : str) :
  (forall c, In c token -> is_decimal c = false /\ c <> 44) ->
  extract_amount token = Ok {| info_amount := None; info_currency := u "GBP" |}.
Proof.
  intros H. unfold extract_amount.
  destruct (negb (truthy token)); [reflexivity|].
  destruct (re_search _ _) eqn:S; [|reflexivity].
  exfalso. apply search_from_sound in S as (sk & w & s' & E & R).
  apply number_run_starts in R as (c & w' & -> & C).
  assert (I : In c (re_sub not_amount_char [] token)).
  { rewrite E. apply in_or_app. right. now left. }
  apply re_sub_delete_in in I.
  destruct (H c I) as [D N]. destruct C; congruence.
Qed.

End Currency.

Example extract_amount_plain :
  @extract_amount plain_unicode (u "500")
  = Ok {| info_amount := Some 500%float; info_currency := u "GBP" |}.
Proof. vm_compute. reflexivity. Qed.

Example clean_field_ex :
  @clean_field plain_unicode (u "  ATM   Â£ Location ") = Some (u "ATM £ Location").
Proof. vm_compute. reflexivity. Qed.

(** Whatever the Unicode database, [extract_amount] does not look for ISO
    codes and raises on a token whose number run is a lone comma. *)
Lemma extract_amount_iso_code {U : UnicodeData} :
  extract_amount (u "100USD")
  = Ok {| info_amount := Some 100%float; info_currency := u "GBP" |}.
Proof. vm_compute. reflexivity. Qed.

Lemma extract_amount_comma {U : UnicodeData} :
  extract_amount (u ",") = Raise ValueError.
Proof. vm_compute. reflexivity. Qed.

(** C8. [extract_amount] reads ["€1,234.50"] as 1234.50 EUR and the
    mis-decoded ["3491.94â‚¬"] as 3491.94 EUR: the thousands separator is
    dropped and the three characters that the euro sign was decoded into
    are recognised. *)
Theorem extract_amount_euro {U : UnicodeData} :
  extract_amount (u "€1,234.50")
  = Ok {| info_amount := Some 1234.50%float; info_currency := u "EUR" |}
  /\ extract_amount (u "3491.94â‚¬")
     = Ok {| info_amount := Some 3491.94%float; info_currency := u "EUR" |}.
Proof. split; vm_compute; reflexivity. Qed.


(** ** What [float] is called on

    The model of [float] covers the texts of decimal digits and dots.
    These are the only texts that reach it: every argument of a [float] call
    of the parser is a group of digits, commas and dots, commas removed. *)

Ltac invert_binds :=
  repeat match goal with
         | H : binds (RSeq _ _) _ _ _ _ |- _ => inversion H; clear H; subst
         | H : binds (RAtom _) _ _ _ _ |- _ => inversion H; clear H; subst
         | H : binds (RRep _ _ _) _ _ _ _ |- _ => inversion H; clear H; subst
         | H : binds (RGroup _ _) _ _ _ _ |- _ => inversion H; clear H; subst
         | H : binds (RAlt _ _) _ _ _ _ |- _ => inversion H; clear H; subst
         | H : binds REmpty _ _ _ _ |- _ => inversion H; clear H; subst
         | H : binds RBol _ _ _ _ |- _ => inversion H; clear H; subst
         | H : binds REol _ _ _ _ |- _ => inversion H; clear H; subst
         end.

Section FloatArguments.
Context {U : UnicodeData}.

Lemma replace_delete (a : char) (s : str) :
  replace s [a] [] = filter (fun c => negb (c =? a)) s.
Proof.
  unfold replace. induction s as [|c s IH]; simpl; [reflexivity|].
  rewrite (N.eqb_sym a c), andb_true_r.
  destruct (c =? a); simpl; [|f_equal]; exact IH.
Qed.

Lemma commas_removed (w : str) :
  Forall (fun c => is_decimal c = true \/ c = chr "," \/ c = chr ".") w ->
  float_text (replace w (u ",") []).
Proof.
  intros H. change (u ",") with [chr ","]. rewrite replace_delete.
  unfold float_text. apply Forall_forall. intros c I.
  apply filter_In in I as [I N].
  rewrite Forall_forall in H. destruct (H c I) as [D | [C | D]]; auto.
  subst c. discriminate.
Qed.

Lemma digits_commas_dots (w : str) :
  forallb (atom_ok (ASet [SDigit; SChar (chr ","); SChar (chr ".")])) w = true ->
  Forall (fun c => is_decimal c = true \/ c = chr "," \/ c = chr ".") w.
Proof.
  intros H. apply Forall_forall. intros c I.
  rewrite forallb_forall in H. specialize (H c I). simpl in H.
  rewrite orb_false_r in H.
  apply orb_prop in H as [D | H]; [now left|right].
  apply orb_prop in H as [H | H]; apply N.eqb_eq in H; auto.
Qed.

Ltac group_four :=
  match goal with
  | H : re_match _ _ = Some _ |- _ =>
      apply re_match_binds in H as (w & s' & _ & H)
  end;
  cbv delta [pattern7 pattern8 pattern9] in *;
  invert_binds; cbn [group Nat.eqb];
  apply commas_removed, digits_commas_dots; assumption.

Lemma float_argument7 (line : str) (m : groups) :
  re_match pattern7 line = Some m ->
  float_text (replace (group m 4) (u ",") []).
Proof. intros H. group_four. Qed.

Lemma float_argument8 (line : str) (m : groups) :
  re_match pattern8 line = Some m ->
  float_text (replace (group m 4) (u ",") []).
Proof. intros H. group_four. Qed.

Lemma float_argument9 (line : str) (m : groups) :
  re_match pattern9 line = Some m ->
  float_text (replace (group m 4) (u ",") []).
Proof. intros H. group_four. Qed.

Lemma float_argument_number_run (s : str) (m : groups) :
  re_search number_run s = Some m ->
  float_text (replace (group m 1) (u ",") []).
Proof.
  intros H. apply search_from_binds in H as (sk & w & s' & _ & H).
  unfold number_run in H. invert_binds. cbn [group Nat.eqb].
  apply commas_removed.
  repeat (apply Forall_app; split);
    match goal with
    | H : forallb _ ?w = true |- Forall _ ?w =>
        apply Forall_forall; intros c I;
        rewrite forallb_forall in H; specialize (H c I); simpl in H
    end.
  - rewrite orb_false_r in H3.
    apply orb_prop in H3 as [D | C]; [now left|].
    right; left. now apply N.eqb_eq.
  - right; right. now apply N.eqb_eq.
  - now left.
Qed.

End FloatArguments.

(** ** White space at the ends of a string *)

Section Strip.
Context {U : UnicodeData}.

Lemma lstrip_split (s : str) :
  exists a, s = a ++ lstrip s /\ forallb is_space a = true.
Proof.
  induction s as [|c s (a & E & F)]; [now exists []|]. simpl.
  destruct (is_space c) eqn:C.
  - exists (c :: a). simpl. rewrite C, F. now rewrite E at 1.
  - now exists [].
Qed.

Lemma lstrip_head (s : str) : head_space (lstrip s) = false.
Proof.
  induction s as [|c s IH]; [reflexivity|]. simpl.
  destruct (is_space c) eqn:C; [exact IH|]. simpl. exact C.
Qed.

Lemma lstrip_id (s : str) : head_space s = false -> lstrip s = s.
Proof. destruct s as [|c s]; simpl; [reflexivity|]. now intros ->. Qed.

Lemma lstrip_length (s : str) : (List.length (lstrip s) <= List.length s)%nat.
Proof.
  induction s as [|c s IH]; simpl; [lia|].
  destruct (is_space c); simpl; lia.
Qed.

Lemma rstrip_split (s : str) :
  exists b, s = rstrip s ++ b /\ forallb is_space b = true.
Proof.
  destruct (lstrip_split (rev s)) as (a & E & F).
  exists (rev a). split.
  - unfold rstrip. rewrite <- rev_app_distr, <- E. now rewrite rev_involutive.
  - rewrite forallb_forall in *. intros x I. apply F. now apply in_rev.
Qed.

Lemma head_space_prefix (s t : str) :
  head_space (s ++ t) = false -> head_space s = false.
Proof. destruct s; simpl; auto. Qed.

Lemma strip_head (s : str) : head_space (strip s) = false.
Proof.
  unfold strip. destruct (rstrip_split (lstrip s)) as (b & E & _).
  apply head_space_prefix with (t := b). rewrite <- E. apply lstrip_head.
Qed.

Lemma rstrip_last (s w : str) (x : char) :
  rstrip s = w ++ [x] -> is_space x = false.
Proof.
  unfold rstrip. intros E.
  apply (f_equal (@rev char)) in E. rewrite rev_involutive, rev_app_distr in E.
  simpl in E. pose proof (lstrip_head (rev s)) as H. now rewrite E in H.
Qed.

Lemma rstrip_id (s : str) :
  (forall w x, s = w ++ [x] -> is_space x = false) -> rstrip s = s.
Proof.
  intros H. unfold rstrip. rewrite lstrip_id; [apply rev_involutive|].
  destruct (rev s) as [|c t] eqn:E; [reflexivity|]. simpl.
  apply (H (rev t) c). rewrite <- (rev_involutive s), E. reflexivity.
Qed.

(** [strip] leaves a stripped string alone. *)
Lemma strip_idempotent (s : str) : strip (strip s) = strip s.
Proof.
  unfold strip at 1. rewrite lstrip_id by apply strip_head.
  apply rstrip_id. intros w x E. unfold strip in E.
  eapply rstrip_last; eauto.
Qed.

(** [strip] removes white space at both ends and nothing else. *)
Lemma strip_split (s : str) :
  exists a b, s = a ++ strip s ++ b
    /\ forallb is_space a = true /\ forallb is_space b = true.
Proof.
  destruct (lstrip_split s) as (a & Ea & Fa).
  destruct (rstrip_split (lstrip s)) as (b & Eb & Fb).
  exists a, b. unfold strip. now rewrite <- Eb.
Qed.

Lemma strip_in (s : str) (c : char) : In c (strip s) -> In c s.
Proof.
  destruct (strip_split s) as (a & b & E & _). intros I. rewrite E.
  apply in_or_app. right. apply in_or_app. now left.
Qed.

Lemma strip_fixed_last (s w : str) (x : char) :
  strip s = s -> s = w ++ [x] -> is_space x = false.
Proof.
  intros E ->. unfold strip in E. eapply rstrip_last; eauto.
Qed.

Lemma strip_fixed_head (s : str) : strip s = s -> head_space s = false.
Proof. intros <-. apply strip_head. Qed.







End Strip.

(** ** The matcher finds what the pattern can read *)

Section MatcherComplete.
Context {U : UnicodeData}.

Lemma rep_complete (A : Type) (p : char -> bool) (w : str) :
  forall (lo : nat) (hi : option nat) (s' : str) (k : str -> option A) (x : A),
    forallb p w = true -> (lo <= List.length w)%nat ->
    (forall h, hi = Some h -> (List.length w <= h)%nat) ->
    k s' = Some x ->
    exists y, rep p lo hi (w ++ s') k = Some y.
Proof.
  induction w as [|c w IH]; intros lo hi s' k x P Lo Hi K.
  - simpl in Lo. assert (lo = O) by lia. subst lo. simpl.
    destruct s' as [|c s'']; simpl; [eauto|].
    destruct (p c && may_take hi); [|eauto].
    destruct (rep p 0 (option_map Nat.pred hi) s'' k); eauto.
  - simpl in P. apply andb_prop in P as [Pc P]. simpl in Lo.
    cbn [app rep]. rewrite Pc.
    assert (T : may_take hi = true).
    { destruct hi as [[|h]|]; try reflexivity.
      specialize (Hi _ eq_refl). simpl in Hi. lia. }
    rewrite T. cbn [andb].
    destruct (IH (Nat.pred lo) (option_map Nat.pred hi) s' k x) as [y Y]; auto.
    + lia.
    + intros h E. destruct hi as [h'|]; [|discriminate].
      injection E as <-. specialize (Hi _ eq_refl). simpl in Hi. lia.
    + rewrite Y. eauto.
Qed.

(** Whatever a pattern without [^] can read so that the rest of the pattern
    succeeds, the matcher succeeds on (possibly with another reading, which
    it tried before). *)
Lemma rmatch_complete (A : Type) (n0 : nat) (r : regex) (w s' : str)
      (g g' : groups) :
  binds r w s' g g' -> no_bol r = true ->
  forall (k : str -> groups -> option A) (x : A),
    k s' g' = Some x ->
    exists y, rmatch n0 r (w ++ s') g k = Some y.
Proof.
  induction 1 as [rest g|a c rest g Ok|a lo hi w rest g P Lo Hi
                 |r1 r2 w1 w2 rest g g1 g2 B1 IH1 B2 IH2
                 |r1 r2 w rest g g' B IH|r1 r2 w rest g g' B IH
                 |i r w rest g g' B IH|rest g|rest g E];
    intros NB k x K; simpl in NB.
  - simpl. eauto.
  - simpl. rewrite Ok. eauto.
  - cbn [rmatch]. eapply rep_complete; eauto.
  - apply andb_prop in NB as [N1 N2].
    destruct (IH2 N2 k x K) as [y Y].
    rewrite <- app_assoc. cbn [rmatch].
    eapply (IH1 N1 (fun s' g' => rmatch n0 r2 s' g' k)). exact Y.
  - apply andb_prop in NB as [N1 N2]. cbn [rmatch].
    destruct (IH N1 k x K) as [y Y]. rewrite Y. eauto.
  - apply andb_prop in NB as [N1 N2]. cbn [rmatch].
    destruct (rmatch n0 r1 (w ++ rest) g k); eauto.
  - cbn [rmatch]. eapply IH; eauto. cbv beta. rewrite firstn_read. exact K.
  - discriminate.
  - simpl. destruct E as [-> | ->]; simpl; eauto.
Qed.

(** A pattern that starts with [^] is matched at the start. *)
Lemma re_match_bol (r : regex) (s : str) :
  re_match (RSeq RBol r) s
  = rmatch (List.length s) r s [] (fun _ g => Some g).
Proof. unfold re_match. cbn [rmatch]. now rewrite Nat.eqb_refl. Qed.


Lemma search_from_none (n0 : nat) (pattern : regex) (s : str) :
  search_from n0 pattern s = None ->
  forall a b, s = a ++ b -> rmatch n0 pattern b [] (fun _ g => Some g) = None.
Proof.
  induction s as [|c s IH]; simpl; intros H a b E.
  - destruct a; [|discriminate]. simpl in E. subst b.
    destruct (rmatch n0 pattern [] [] _); congruence.
  - destruct (rmatch n0 pattern (c :: s) [] (fun _ g => Some g)) eqn:M;
      [discriminate|].
    destruct a as [|c' a]; simpl in E; [now subst b|].
    injection E as <- E. eapply IH; eauto.
Qed.

(** Deleting the matches of a one-character pattern is a filter. *)
Lemma sub_from_atom (n0 : nat) (a : atom) (s : str) :
  sub_from n0 (RAtom a) [] O s = filter (fun c => negb (atom_ok a c)) s.
Proof.
  induction s as [|c s IH]; [reflexivity|].
  cbn [sub_from rmatch filter].
  destruct (atom_ok a c); cbn [negb].
  - cbn [List.length]. rewrite Nat.sub_succ_l, Nat.sub_diag by lia.
    simpl. exact IH.
  - now rewrite IH.
Qed.

End MatcherComplete.

(** ** [extract_amount] *)

Section ExtractAmount.
Context {U : UnicodeData}.

Lemma amount_clean_filter (s : str) :
  re_sub not_amount_char [] s = filter amount_char s.
Proof.
  unfold re_sub, not_amount_char. rewrite sub_from_atom.
  apply filter_ext. intros c. unfold amount_char. simpl.
  rewrite negb_involutive. now rewrite !orb_false_r.
Qed.

(** The amount depends on the kept characters alone. *)
Lemma extract_amount_amount (s : str) :
  amount_of (extract_amount s)
  = match re_search number_run (filter amount_char s) with
    | Some number_match =>
        amount <- py_float (replace (group number_match 1) (u ",") []) ;;
        Ok (Some amount)
    | None => Ok None
    end.
Proof.
  unfold extract_amount. destruct s as [|c s]; [reflexivity|].
  cbn [truthy negb]. rewrite amount_clean_filter.
  destruct (re_search _ _); [|reflexivity].
  now destruct (py_float _).
Qed.

(** Where a number run can start. *)
Lemma number_run_at (n0 : nat) (c : char) (s : str) :
  is_decimal c = true \/ c = 44 ->
  exists m, rmatch n0 number_run (c :: s) [] (fun _ g => Some g) = Some m.
Proof.
  intros C.
  assert (B : binds number_run [c] s [] [(1%nat, [c])]).
  { unfold number_run. constructor.
    change [c] with ([c] ++ [] ++ []).
    repeat econstructor; simpl; try lia; try (intros; discriminate).
    - rewrite orb_false_r, andb_true_r. destruct C as [-> | ->]; [reflexivity|].
      now rewrite orb_true_r. }
  eapply (@rmatch_complete _ _ n0) in B; [exact B|reflexivity|reflexivity].
Qed.


Lemma amount_char_number (c : char) :
  is_decimal c = true \/ c = 44 -> amount_char c = true.
Proof.
  unfold amount_char. intros [-> | ->]; [reflexivity|].
  apply orb_true_iff. right. reflexivity.
Qed.











End ExtractAmount.

Section ExtractAmountNull.
Context {U : UnicodeData}.

Lemma extract_amount_null (token : str) (info : amount_info) :
  extract_amount token = Ok info -> info_amount info = None ->
  info_currency info = u "GBP"
  /\ forall c, In c token -> is_decimal c = false /\ c <> 44.
Proof.
  unfold extract_amount. destruct token as [|c0 token].
  { intros [= <-] _. split; [reflexivity|]. intros c []. }
  cbn [truthy negb]. rewrite amount_clean_filter.
  destruct (re_search _ _) as [m|] eqn:S.
  - destruct (py_float _); simpl; [|discriminate]. intros [= <-]. discriminate.
  - intros [= <-] _. split; [reflexivity|]. intros c I.
    assert (N : forall x, is_decimal x = true \/ x = 44 -> x <> c).
    { intros x X ->.
      assert (J : In c (filter amount_char (c0 :: token))).
      { apply filter_In. split; [exact I|]. now apply amount_char_number. }
      apply in_split in J as (a & b & J).
      pose proof (search_from_none _ _ S a (c :: b) J) as M.
      destruct (@number_run_at _ (List.length (filter amount_char (c0 :: token)))
                  c b X) as [m M'].
      congruence. }
    destruct (is_decimal c) eqn:D.
    + exfalso. apply (N c); auto.
    + split; [reflexivity|]. intros ->. apply (N 44); auto.
Qed.

End ExtractAmountNull.

(** ** Currency codes and amounts, in full *)

Section CurrencyCode.
Context {U : UnicodeData}.




Lemma get_currency_code_missing :
  get_currency_code None = u "GBP" /\ get_currency_code (Some []) = u "GBP".
Proof. split; reflexivity. Qed.

End CurrencyCode.

Section ExtractAmountAnswers.
Context {U : UnicodeData}.

Lemma comma_not_decimal : is_decimal 44 = false.
Proof. reflexivity. Qed.





End ExtractAmountAnswers.





(** ** [parse_transaction_line] and the registry *)

Section Registry.
Context {U : UnicodeData}.

(** The cascade of [if match:] statements is the search for the first
    grammar of the registry that matches. *)
Lemma try_patterns_first_match (line : str) (rec : record) :
  try_patterns line rec =
  match first_match registry line with
  | Some (g, m) => r <- bindings g rec m ;; Ok (Some r)
  | None => Ok None
  end.
Proof.
  unfold try_patterns, registry. cbn [first_match pattern bindings].
  repeat match goal with
         | |- context [re_match ?p line] =>
             destruct (re_match p line); [cbn [bindings]; reflexivity|]
         end.
  reflexivity.
Qed.

Lemma sentinel_cases (line : str) :
  sentinel line = true ->
  line = [] \/ line = quoted_empty \/ line = u "MALFORMED_LOG".
Proof.
  unfold sentinel, str_in. destruct line as [|c line]; [auto|].
  cbn [existsb negb truthy orb]. rewrite orb_false_r.
  intros H. apply orb_prop in H as [H | H]; apply str_eqb_eq in H; auto.
Qed.

(** No pattern matches a sentinel line, so the early [return None] changes
    nothing in what the registry decides. *)
Lemma sentinel_unmatched (line : str) :
  sentinel line = true -> first_match registry line = None.
Proof.
  intros H. apply sentinel_cases in H as [-> | [-> | ->]];
    vm_compute; reflexivity.
Qed.

Lemma parse_transaction_line_first_match (line : str) (row_id : Z) :
  parse_transaction_line line row_id =
  match first_match registry line with
  | Some (g, m) => outcome (bindings g (blank line row_id) m)
  | None => None
  end.
Proof.
  unfold parse_transaction_line. fold (sentinel line).
  destruct (sentinel line) eqn:S.
  - now rewrite sentinel_unmatched.
  - cbv zeta. rewrite try_patterns_first_match.
    destruct (first_match registry line) as [[g m]|]; [|reflexivity].
    destruct (bindings g (blank line row_id) m); reflexivity.
Qed.

(** [first_match] picks the first grammar, in the order of the list, whose
    pattern matches. *)
Lemma first_match_split (gs before after : list grammar) (g : grammar)
      (line : str) (m : groups) :
  gs = before ++ g :: after ->
  Forall (fun g' => re_match (pattern g') line = None) before ->
  re_match (pattern g) line = Some m ->
  first_match gs line = Some (g, m).
Proof.
  intros -> F M. induction F as [|g' before N F IH]; simpl.
  - now rewrite M.
  - now rewrite N.
Qed.

Lemma first_match_inv (gs : list grammar) (line : str) (g : grammar) (m : groups) :
  first_match gs line = Some (g, m) ->
  exists before after,
    gs = before ++ g :: after
    /\ Forall (fun g' => re_match (pattern g') line = None) before
    /\ re_match (pattern g) line = Some m.
Proof.
  induction gs as [|g' gs IH]; simpl; [discriminate|].
  destruct (re_match (pattern g') line) eqn:M.
  - intros [= <- <-]. exists [], gs. auto.
  - intros H. apply IH in H as (before & after & -> & F & M').
    exists (g' :: before), after. auto.
Qed.

End Registry.


(** ** What the bindings of a grammar put in the record *)

Section Bindings.
Context {U : UnicodeData}.

Ltac run_bindings :=
  unfold fields1, fields2, fields3, fields45, fields6, fields7, fields8, fields9;
  cbv beta iota zeta delta [bind];
  repeat match goal with
         | |- context [match ?x with Ok _ => _ | Raise _ => _ end] =>
             let E := fresh "E" in
             destruct x eqn:E; cbv beta iota; [|discriminate]
         end;
  intros [= <-].

Ltac currency_closed :=
  eexists; split; [reflexivity|];
  match goal with
  | m : groups |- _ =>
      first [ eapply extract_amount_closed; eassumption
            | exact (get_currency_code_closed (Some (group m 5)))
            | exact (get_currency_code_closed (clean_field (group m 5)))
            | vm_compute; tauto ]
  end.

Lemma bindings_well_bound (g : grammar) (rec : record) (m : groups) (r : record) :
  In g registry -> bindings g rec m = Ok r -> well_bound g rec m r.
Proof.
  unfold registry. cbn [In]. intros H.
  decompose [or] H; clear H; try contradiction; subst g;
    unfold well_bound, spec_transaction_type, action_token;
    cbv beta iota zeta delta [priority bindings existsb Nat.eqb orb];
    run_bindings; unfold update;
    cbv beta iota zeta delta [row_id original_log currency transaction_type];
    (split; [reflexivity|]); (split; [reflexivity|]);
    (split; [currency_closed|]);
    try reflexivity.
  change (u "-") with [45]. change (chr "-") with 45.
  change (u "_") with [95]. change (chr "_") with 95.
  now rewrite replace_char.
Qed.

Lemma first_match_in (gs : list grammar) (line : str) (g : grammar) (m : groups) :
  first_match gs line = Some (g, m) -> In g gs.
Proof.
  intros H. apply first_match_inv in H as (before & after & -> & _).
  apply in_or_app. right. now left.
Qed.

(** A record [parse_transaction_line] returns was bound by the first
    grammar that matches the line. *)
Lemma parse_transaction_line_some (line : str) (row : Z) (r : record) :
  parse_transaction_line line row = Some r ->
  exists g m,
    first_match registry line = Some (g, m)
    /\ bindings g (blank line row) m = Ok r
    /\ well_bound g (blank line row) m r.
Proof.
  rewrite parse_transaction_line_first_match.
  destruct (first_match registry line) as [[g m]|] eqn:F; [|discriminate].
  destruct (bindings g (blank line row) m) as [r'|] eqn:B; [|discriminate].
  intros [= <-]. exists g, m. split; [reflexivity|]. split; [assumption|].
  eapply bindings_well_bound; eauto using first_match_in.
Qed.

End Bindings.

(** The first example line of the source, parsed. *)
Example example1_record :
  @parse_transaction_line plain_unicode example1 1
  = Some {| row_id := 1;
            original_log := example1;
            datetime := Some {| year := 2023; month := 5; day := 14;
                                hour := 14; minute := 5; second := 31 |};
            user_id := Some (u "user123");
            transaction_type := Some (u "top-up");
            amount := Some 500%float;
            currency := Some (u "GBP");
            location := Some (u "ATM Location");
            device := Some (u "Device") |}.
Proof. vm_compute. reflexivity. Qed.

(** ** First match wins *)

(** C1. The nine grammars are tried in their priority order and the first
    one whose pattern matches the line decides: when no grammar before [g]
    in the registry matches and [g] does, with groups [m], what
    [parse_transaction_line] returns is what the bindings of [g] make of
    [m], whether or not a later grammar matches as well: their record, or
    nothing when they raise.  No other grammar is consulted. *)
Theorem first_match_wins {U : UnicodeData} (line : str) (row : Z)
    (before after : list grammar) (g : grammar) (m : groups) :
  registry = before ++ g :: after ->
  Forall (fun g' => re_match (pattern g') line = None) before ->
  re_match (pattern g) line = Some m ->
  parse_transaction_line line row = outcome (bindings g (blank line row) m).
Proof.
  intros R F M.
  rewrite parse_transaction_line_first_match.
  now rewrite (@first_match_split U registry before after g line m R F M).
Qed.

(** The theorem at [example8], which both pattern 8 and pattern 9 match:
    pattern 8 decides. *)
Lemma first_match_wins_witness :
  exists m8 m9,
    @re_match plain_unicode pattern8 example8 = Some m8
    /\ @re_match plain_unicode pattern9 example8 = Some m9
    /\ @parse_transaction_line plain_unicode example8 1
       = outcome (@fields8 plain_unicode (blank example8 1) m8).
Proof.
  eexists. eexists.
  split; [vm_compute; reflexivity|].
  split; [vm_compute; reflexivity|].
  apply (@first_match_wins plain_unicode example8 1%Z
           (firstn 7 (@registry plain_unicode))
           [ @Build_grammar plain_unicode 9 pattern9 (@fields9 plain_unicode) ]
           (@Build_grammar plain_unicode 8 pattern8 (@fields8 plain_unicode))).
  - reflexivity.
  - repeat constructor; vm_compute; reflexivity.
  - vm_compute; reflexivity.
Defined.

(** ** The loop over the filtered lines *)

Section Batch.
Context {U : UnicodeData}.

Lemma parse_transaction_line_ids (line : str) (row : Z) (r : record) :
  parse_transaction_line line row = Some r ->
  row_id r = row /\ original_log r = line.
Proof.
  intros H. apply parse_transaction_line_some in H as (g & m & _ & _ & W).
  destruct W as (Hr & Ho & _). auto.
Qed.

Lemma parse_lines_app (l1 l2 : list str) :
  forall idx,
    parse_lines idx (l1 ++ l2)
    = parse_lines idx l1 ++ parse_lines (idx + List.length l1) l2.
Proof.
  induction l1 as [|line l1 IH]; intros idx; simpl.
  - now rewrite Nat.add_0_r.
  - rewrite IH, <- Nat.add_succ_comm.
    destruct (parse_transaction_line line _); reflexivity.
Qed.

(** Every record of the loop comes from the line at some position [i],
    parsed with the ordinal of that position. *)
Lemma parse_lines_from (lines : list str) :
  forall idx r,
    In r (parse_lines idx lines) ->
    exists i line,
      nth_error lines i = Some line
      /\ parse_transaction_line line (Z.of_nat (idx + i) + 1) = Some r.
Proof.
  induction lines as [|line rest IH]; intros idx r H; simpl in H; [contradiction|].
  assert (Rest : In r (parse_lines (S idx) rest) ->
                 exists i l, nth_error (line :: rest) i = Some l
                   /\ parse_transaction_line l (Z.of_nat (idx + i) + 1) = Some r).
  { intros I. apply IH in I as (i & l & N & P).
    exists (S i), l. split; [exact N|].
    now rewrite <- Nat.add_succ_comm. }
  destruct (parse_transaction_line line (Z.of_nat idx + 1)) as [rec|] eqn:P; [|auto].
  destruct H as [<- | H]; [|auto].
  exists O, line. split; [reflexivity|]. now rewrite Nat.add_0_r.
Qed.

(** Every line is parsed, with the ordinal of its position. *)
Lemma parse_lines_to (lines : list str) :
  forall idx i line r,
    nth_error lines i = Some line ->
    parse_transaction_line line (Z.of_nat (idx + i) + 1) = Some r ->
    In r (parse_lines idx lines).
Proof.
  induction lines as [|l rest IH]; intros idx i line r N P.
  - destruct i; discriminate.
  - simpl. destruct i as [|i]; simpl in N.
    + injection N as ->. rewrite Nat.add_0_r in P. rewrite P. now left.
    + rewrite <- Nat.add_succ_comm in P.
      specialize (IH _ _ _ _ N P).
      destruct (parse_transaction_line l _); [now right|exact IH].
Qed.

Lemma parse_lines_sorted (lines : list str) :
  forall idx, StronglySorted Z.lt (map row_id (parse_lines idx lines)).
Proof.
  induction lines as [|line rest IH]; intros idx; simpl; [constructor|].
  destruct (parse_transaction_line line (Z.of_nat idx + 1)) as [rec|] eqn:P;
    [|apply IH].
  simpl. constructor; [apply IH|].
  apply Forall_forall. intros x I.
  apply in_map_iff in I as (r & <- & I).
  apply parse_lines_from in I as (i & l & _ & Q).
  apply parse_transaction_line_ids in P as [-> _].
  apply parse_transaction_line_ids in Q as [-> _]. lia.
Qed.

Lemma data_frame_map (df : list record) : data_frame df = map post_process df.
Proof. destruct df; reflexivity. Qed.

End Batch.

(** ** The data set *)

Section Dataset.
Context {U : UnicodeData}.
Variable read_text : str -> result str.

Lemma clean_transaction_logs_ok (path raw : option str) (content : str) :
  raw_content read_text path raw = Ok content ->
  clean_transaction_logs read_text path raw
  = Ok (map post_process (parse_lines 0 (valid_lines content))).
Proof.
  intros H. unfold clean_transaction_logs. rewrite H. simpl.
  now rewrite data_frame_map.
Qed.

Lemma clean_transaction_logs_inv (path raw : option str) (ds : list record) :
  clean_transaction_logs read_text path raw = Ok ds ->
  exists content,
    raw_content read_text path raw = Ok content
    /\ ds = map post_process (parse_lines 0 (valid_lines content)).
Proof.
  unfold clean_transaction_logs.
  destruct (raw_content read_text path raw) as [content|] eqn:R; [|discriminate].
  simpl. intros [= <-]. exists content. now rewrite data_frame_map.
Qed.

Lemma row_ids_post_process (l : list record) :
  map row_id (map post_process l) = map row_id l.
Proof. rewrite map_map. now apply map_ext. Qed.

End Dataset.

(** C2. In the data set that [clean_transaction_logs] returns the row
    identifiers strictly increase; the identifier of a record is the 1-based
    position of its line among the filtered lines ([valid_lines], not the
    lines of the raw text); and the ordinals run over the filtered lines
    without a gap: the line at position [i] is parsed with ordinal [i + 1]
    whatever happened to the lines before it, so it is either dropped or in
    the data set under that identifier. *)
Theorem row_id_is_position {U : UnicodeData} (read_text : str -> result str)
    (path raw : option str) (content : str) :
  raw_content read_text path raw = Ok content ->
  exists ds,
    clean_transaction_logs read_text path raw = Ok ds
    /\ StronglySorted Z.lt (map row_id ds)
    /\ (forall r, In r ds ->
          exists i,
            row_id r = (Z.of_nat i + 1)%Z
            /\ nth_error (valid_lines content) i = Some (original_log r))
    /\ (forall i line,
          nth_error (valid_lines content) i = Some line ->
          parse_transaction_line line (Z.of_nat i + 1) = None
          \/ exists r,
               In r ds /\ row_id r = (Z.of_nat i + 1)%Z /\ original_log r = line).
Proof.
  intros H. eexists.
  split; [eapply clean_transaction_logs_ok; eassumption|].
  split; [rewrite row_ids_post_process; apply parse_lines_sorted|].
  split.
  - intros r I. apply in_map_iff in I as (r0 & <- & I).
    apply parse_lines_from in I as (i & line & N & P).
    apply parse_transaction_line_ids in P as [Hr Ho].
    exists i. simpl. rewrite Hr, Ho. auto.
  - intros i line N.
    destruct (parse_transaction_line line (Z.of_nat i + 1)) as [r0|] eqn:P;
      [right|now left].
    exists (post_process r0). split.
    + apply in_map. eapply parse_lines_to; eauto.
    + apply parse_transaction_line_ids in P as [Hr Ho]. simpl. auto.
Qed.

(** The theorem at [five_lines].  Three of its lines pass the filter; the
    two records have the identifiers 1 and 3, the positions of their lines
    among those three. *)
Lemma row_id_is_position_witness :
  exists ds,
    @clean_transaction_logs plain_unicode (fun _ => Raise OSError)
       None (Some five_lines) = Ok ds
    /\ StronglySorted Z.lt (map row_id ds)
    /\ (forall r, In r ds ->
          exists i,
            row_id r = (Z.of_nat i + 1)%Z
            /\ nth_error (@valid_lines plain_unicode five_lines) i
               = Some (original_log r))
    /\ (forall i line,
          nth_error (@valid_lines plain_unicode five_lines) i = Some line ->
          @parse_transaction_line plain_unicode line (Z.of_nat i + 1) = None
          \/ exists r,
               In r ds /\ row_id r = (Z.of_nat i + 1)%Z /\ original_log r = line).
Proof.
  apply (@row_id_is_position plain_unicode (fun _ => Raise OSError)
           None (Some five_lines) five_lines).
  reflexivity.
Defined.

Example five_lines_row_ids :
  @valid_lines plain_unicode five_lines = [example7; u "garbage"; example1]
  /\ exists ds,
       @clean_transaction_logs plain_unicode (fun _ => Raise OSError)
          None (Some five_lines) = Ok ds
       /\ map row_id ds = [1; 3]%Z
       /\ map original_log ds = [example7; example1].
Proof.
  split; [vm_compute; reflexivity|].
  eexists. split; [vm_compute; reflexivity|].
  split; reflexivity.
Qed.

(** ** A line whose extraction raises *)

(** C5. When the first grammar that matches a line raises while it binds
    the fields, [parse_transaction_line] returns [None]: no record, partial
    or not, and no exception.  And a line for which it returns [None] does
    not stop the batch: the lines after it are parsed, with the ordinals of
    their own positions. *)
Theorem extraction_failure_drops_line {U : UnicodeData} :
  (forall line row g m e,
      first_match registry line = Some (g, m) ->
      bindings g (blank line row) m = Raise e ->
      parse_transaction_line line row = None)
  /\ (forall (read_text : str -> result str) path raw content before line after,
        raw_content read_text path raw = Ok content ->
        valid_lines content = before ++ line :: after ->
        parse_transaction_line line (Z.of_nat (List.length before) + 1) = None ->
        clean_transaction_logs read_text path raw
        = Ok (data_frame (parse_lines 0 before
                          ++ parse_lines (S (List.length before)) after))).
Proof.
  split.
  - intros line row g m e F B.
    now rewrite parse_transaction_line_first_match, F, B.
  - intros read_text path raw content before line after R V P.
    unfold clean_transaction_logs. rewrite R. simpl. rewrite V.
    rewrite parse_lines_app. simpl. now rewrite P.
Qed.

(** The theorem at [bad_amount_line], between two good lines: pattern 7
    matches it, [float] raises on ["1.2.3"], and the batch has the records
    of the lines around it. *)
Lemma extraction_failure_drops_line_witness :
  (exists m,
      @first_match plain_unicode registry bad_amount_line
      = Some (@Build_grammar plain_unicode 7 pattern7 (@fields7 plain_unicode), m)
      /\ @fields7 plain_unicode (blank bad_amount_line 2) m = Raise ValueError)
  /\ @parse_transaction_line plain_unicode bad_amount_line 2 = None
  /\ exists ds,
       @clean_transaction_logs plain_unicode (fun _ => Raise OSError) None
          (Some (example7 ++ [10] ++ bad_amount_line ++ [10] ++ example1))
       = Ok ds
       /\ map row_id ds = [1; 3]%Z.
Proof.
  pose proof (@extraction_failure_drops_line plain_unicode) as [Drop Batch].
  assert (F : exists m,
             @first_match plain_unicode registry bad_amount_line
             = Some (@Build_grammar plain_unicode 7 pattern7
                       (@fields7 plain_unicode), m)
             /\ @fields7 plain_unicode (blank bad_amount_line 2) m
                = Raise ValueError).
  { eexists. split.
    - apply (@first_match_split plain_unicode registry
               (firstn 6 (@registry plain_unicode))
               (skipn 7 (@registry plain_unicode))).
      + reflexivity.
      + repeat constructor; vm_compute; reflexivity.
      + vm_compute; reflexivity.
    - vm_compute; reflexivity. }
  assert (P : @parse_transaction_line plain_unicode bad_amount_line 2 = None).
  { destruct F as (m & F & B). exact (Drop _ _ _ _ _ F B). }
  split; [exact F|]. split; [exact P|].
  eexists. split.
  - apply (Batch (fun _ => Raise OSError) None
             (Some (example7 ++ [10] ++ bad_amount_line ++ [10] ++ example1))
             (example7 ++ [10] ++ bad_amount_line ++ [10] ++ example1)
             [example7] bad_amount_line [example1]).
    + vm_compute; reflexivity.
    + vm_compute; reflexivity.
    + change (Z.of_nat (List.length [example7]) + 1)%Z with 2%Z. exact P.
  - vm_compute; reflexivity.
Defined.

(** ** Sentinel lines *)

Lemma valid_lines_kept {U : UnicodeData} (raw line : str) :
  In line (valid_lines raw) ->
  line <> [] /\ line <> quoted_empty /\ line <> u "MALFORMED_LOG".
Proof.
  unfold valid_lines. intros H.
  apply in_map_iff in H as (l & <- & H).
  apply filter_In in H as [_ K]. unfold keep_line in K.
  apply andb_prop in K as [K _]. apply andb_prop in K as [T K].
  apply negb_true_iff in K. unfold str_in in K. cbn [existsb] in K.
  apply orb_false_elim in K as [K1 K]. apply orb_false_elim in K as [K2 _].
  apply str_eqb_neq in K1, K2.
  repeat split; auto.
  intros E. rewrite E in T. discriminate.
Qed.

(** C9. Called directly on the empty string, on the two-character string
    of two double quotes or on ["MALFORMED_LOG"], [parse_transaction_line]
    returns [None] for every row ordinal; and none of the three is ever
    among the lines that pass the line filter. *)
Theorem sentinels_unparsed {U : UnicodeData} :
  (forall row, parse_transaction_line [] row = None)
  /\ (forall row, parse_transaction_line quoted_empty row = None)
  /\ (forall row, parse_transaction_line (u "MALFORMED_LOG") row = None)
  /\ (forall raw line,
        In line (valid_lines raw) ->
        line <> [] /\ line <> quoted_empty /\ line <> u "MALFORMED_LOG").
Proof.
  repeat split; try (intros row; reflexivity); intros E;
    apply valid_lines_kept in H as (A & B & C); contradiction.
Qed.

(** ** The currency column *)

Lemma post_process_currency (r : record) (c : str) :
  currency r = Some c -> currency (post_process r) = Some c.
Proof. intros H. simpl. now rewrite H. Qed.

(** C6. Every record of the data set has one of the three codes EUR, GBP
    and USD as its currency, whichever grammar made it.  The
    post-processing fills a missing currency with USD, which is not the
    GBP that [extract_amount] answers when it finds no currency. *)
Theorem currency_is_a_code {U : UnicodeData} :
  (forall (read_text : str -> result str) path raw ds,
      clean_transaction_logs read_text path raw = Ok ds ->
      forall r, In r ds -> exists c, currency r = Some c /\ In c currency_codes)
  /\ (forall r, currency r = None -> currency (post_process r) = Some (u "USD"))
  /\ extract_amount [] = Ok {| info_amount := None; info_currency := u "GBP" |}
  /\ u "USD" <> u "GBP".
Proof.
  split.
  { intros read_text path raw ds H r I.
    apply clean_transaction_logs_inv in H as (content & _ & ->).
    apply in_map_iff in I as (r0 & <- & I).
    apply parse_lines_from in I as (i & line & _ & P).
    apply parse_transaction_line_some in P as (g & m & _ & _ & W).
    destruct W as (_ & _ & (c & C & K) & _).
    exists c. split; [now apply post_process_currency|exact K]. }
  split; [intros r H; simpl; now rewrite H|].
  split; [reflexivity|].
  vm_compute. discriminate.
Qed.

(** The theorem at the nine example lines of the source, one per grammar. *)
Lemma currency_is_a_code_witness :
  exists ds,
    @clean_transaction_logs plain_unicode (fun _ => Raise OSError) None
       (Some (example1 ++ [10] ++ example2 ++ [10] ++ example3 ++ [10]
              ++ example4 ++ [10] ++ example5 ++ [10] ++ example6 ++ [10]
              ++ example7 ++ [10] ++ example8 ++ [10] ++ example9))
    = Ok ds
    /\ List.length ds = 9%nat
    /\ forall r, In r ds -> exists c, currency r = Some c /\ In c currency_codes.
Proof.
  pose proof (@currency_is_a_code plain_unicode) as [Codes _].
  eexists. split; [vm_compute; reflexivity|].
  split; [reflexivity|].
  apply (Codes (fun _ => Raise OSError) None
           (Some (example1 ++ [10] ++ example2 ++ [10] ++ example3 ++ [10]
                  ++ example4 ++ [10] ++ example5 ++ [10] ++ example6 ++ [10]
                  ++ example7 ++ [10] ++ example8 ++ [10] ++ example9))).
  vm_compute; reflexivity.
Defined.

(** ** The transaction type *)

(** C10. The transaction type of a record is decided by the grammar that
    made it: the action token in lower case for the triple-colon grammars
    6, 8 and 9, the action token with every ['-'] replaced by ['_'] for the
    arrow grammar 3, and the action token as it stands for the others
    ([spec_transaction_type]). *)
Theorem transaction_type_by_grammar {U : UnicodeData} (line : str) (row : Z)
    (r : record) :
  parse_transaction_line line row = Some r ->
  exists g m,
    first_match registry line = Some (g, m)
    /\ transaction_type r = Some (spec_transaction_type g m).
Proof.
  intros H. apply parse_transaction_line_some in H as (g & m & F & _ & W).
  exists g, m. split; [exact F|apply W].
Qed.

Example transaction_types :
  map (fun line =>
         match @parse_transaction_line plain_unicode line 1 with
         | Some r => transaction_type r
         | None => None
         end)
      [example1; example2; example3; example4; example5; example6; example7;
       example8; example9]
  = map Some [u "top-up"; u "top-up"; u "top_up"; u "top-up"; u "top-up";
              u "top-up"; u "top-up"; u "top-up"; u "refund"].
Proof. vm_compute. reflexivity. Qed.

(** The theorem at [example6], whose action token is ["TOP-UP"]. *)
Lemma transaction_type_by_grammar_witness :
  exists r,
    @parse_transaction_line plain_unicode example6 1 = Some r
    /\ transaction_type r = Some (u "top-up")
    /\ exists g m,
         @first_match plain_unicode registry example6 = Some (g, m)
         /\ transaction_type r = Some (spec_transaction_type g m).
Proof.
  eexists. split; [vm_compute; reflexivity|].
  split; [reflexivity|].
  apply (@transaction_type_by_grammar plain_unicode example6 1%Z).
  vm_compute; reflexivity.
Defined.

(** ** The input source *)

(** C3, at the input that fails it: with no path and an empty text as
    [raw_data] the call raises the [ValueError] that its docstring reserves
    for the case where neither is provided, although the same empty text
    read from a file gives the empty data set. *)
Theorem empty_text_raises {U : UnicodeData} (read_text : str -> result str) :
  clean_transaction_logs read_text None (Some []) = Raise ValueError
  /\ (forall path,
        truthy path = true -> read_text path = Ok [] ->
        clean_transaction_logs read_text (Some path) None = Ok []).
Proof.
  split; [reflexivity|].
  intros path T R. unfold clean_transaction_logs, raw_content.
  destruct path as [|c p]; [discriminate|]. rewrite R. reflexivity.
Qed.

(** What does hold of the input source: the call raises exactly when the
    text cannot be had (no non-empty path and no non-empty text, or a file
    that cannot be read), and once the text is there the whole batch is
    returned. *)
Lemma clean_transaction_logs_total {U : UnicodeData}
    (read_text : str -> result str) (path raw : option str) :
  match raw_content read_text path raw with
  | Ok content => exists ds, clean_transaction_logs read_text path raw = Ok ds
  | Raise e => clean_transaction_logs read_text path raw = Raise e
  end.
Proof.
  unfold clean_transaction_logs.
  destruct (raw_content read_text path raw); simpl; eauto.
Qed.

(** * Further properties of the parser *)

(** ** [clean_field] *)

Section Squeeze.
Context {U : UnicodeData}.

(** A greedy repetition that nothing follows takes the whole run. *)
Lemma rep_spaces (s : str) :
  forall lo,
    rep is_space lo None s (fun rest => Some rest)
    = if (lo <=? List.length s - List.length (lstrip s))%nat
      then Some (lstrip s) else None.
Proof.
  induction s as [|c s IH]; intros lo.
  - now destruct lo.
  - pose proof (lstrip_length s) as L.
    cbn [rep lstrip may_take option_map]. rewrite andb_true_r.
    destruct (is_space c) eqn:C.
    + rewrite IH. cbn [List.length].
      replace (S (List.length s) - List.length (lstrip s))%nat
        with (S (List.length s - List.length (lstrip s))) by lia.
      destruct lo as [|lo]; cbn [Nat.pred Nat.leb]; [reflexivity|].
      now destruct (lo <=? _)%nat.
    + rewrite Nat.sub_diag. now destruct lo.
Qed.

(** [re.sub(r"\s+", " ", s)] is [squeeze]. *)
Lemma sub_from_spaces (n0 : nat) (s : str) :
  sub_from n0 spaces [32] O s = squeeze false s
  /\ sub_from n0 spaces [32] (List.length s - List.length (lstrip s)) s
     = squeeze true s.
Proof.
  induction s as [|c s [IH1 IH2]].
  - split; reflexivity.
  - pose proof (lstrip_length s) as L.
    assert (H1 : sub_from n0 spaces [32] O (c :: s) = squeeze false (c :: s)).
    { cbn [sub_from spaces rmatch atom_ok squeeze].
      change (atom_ok ASpace) with is_space.
      rewrite (rep_spaces (c :: s) 1). cbn [lstrip List.length].
      destruct (is_space c) eqn:C.
      - replace (S (List.length s) - List.length (lstrip s))%nat
          with (S (List.length s - List.length (lstrip s))) by lia.
        cbn [Nat.leb]. rewrite Nat.sub_succ_l by exact L.
        rewrite IH2. reflexivity.
      - rewrite Nat.sub_diag. cbn [Nat.leb]. now rewrite IH1. }
    split; [exact H1|].
    cbn [lstrip]. destruct (is_space c) eqn:C.
    + cbn [List.length].
      replace (S (List.length s) - List.length (lstrip s))%nat
        with (S (List.length s - List.length (lstrip s))) by lia.
      cbn [sub_from squeeze]. now rewrite C.
    + rewrite Nat.sub_diag, H1. cbn [squeeze]. now rewrite C.
Qed.

Lemma re_sub_spaces_squeeze (s : str) : re_sub spaces (u " ") s = squeeze false s.
Proof. apply sub_from_spaces. Qed.

Lemma squeeze_in (c : char) (s : str) :
  forall b, In c (squeeze b s) -> c = 32 \/ In c s.
Proof.
  induction s as [|x s IH]; intros b; simpl; [tauto|].
  destruct (is_space x); [destruct b|]; simpl; intros H;
    repeat match goal with
           | H : _ \/ _ |- _ => destruct H
           | H : In c (squeeze _ s) |- _ => apply IH in H
           end; auto.
Qed.

Lemma squeeze_single (s : str) :
  forall b,
    single_spaced (squeeze b s) = true /\ head_space (squeeze true s) = false.
Proof.
  induction s as [|x s IH]; intros b; simpl; [auto|].
  destruct (IH true) as [S1 H1]. destruct (IH false) as [S2 _].
  destruct (is_space x) eqn:X.
  - split; [|exact H1]. destruct b; [exact S1|].
    simpl. now rewrite H1, S1.
  - simpl. rewrite X, S2. auto.
Qed.

Lemma squeeze_run (s : str) :
  head_space s = false -> squeeze true s = squeeze false s.
Proof. destruct s as [|c s]; simpl; [reflexivity|]. now intros ->. Qed.

Lemma squeeze_id (s : str) : single_spaced s = true -> squeeze false s = s.
Proof.
  induction s as [|x s IH]; simpl; [reflexivity|].
  intros H. apply andb_prop in H as [H S]. specialize (IH S).
  destruct (is_space x).
  - apply andb_prop in H as [E N]. apply N.eqb_eq in E as ->.
    apply negb_true_iff in N. rewrite (squeeze_run _ N). now f_equal.
  - now f_equal.
Qed.

Lemma single_spaced_suffix (a s : str) :
  single_spaced (a ++ s) = true -> single_spaced s = true.
Proof.
  induction a as [|x a IH]; simpl; [auto|].
  intros H. apply andb_prop in H as [_ H]. auto.
Qed.

Lemma single_spaced_prefix (s b : str) :
  single_spaced (s ++ b) = true -> single_spaced s = true.
Proof.
  induction s as [|x s IH]; simpl; [auto|].
  intros H. apply andb_prop in H as [H S]. rewrite (IH S), andb_true_r.
  destruct (is_space x); [|reflexivity].
  apply andb_prop in H as [-> N]. simpl.
  apply negb_true_iff in N. apply negb_true_iff.
  eapply head_space_prefix; eauto.
Qed.

Lemma single_spaced_strip (s : str) :
  single_spaced s = true -> single_spaced (strip s) = true.
Proof.
  destruct (strip_split s) as (a & b & E & _). intros H.
  rewrite E in H. apply single_spaced_suffix in H.
  now apply single_spaced_prefix in H.
Qed.

End Squeeze.

Section CleanField.
Context {U : UnicodeData}.

(** A string that lacks a character of [old] has no occurrence of [old]. *)
Lemma is_prefix_in (old s : str) (x : char) :
  is_prefix old s = true -> In x old -> In x s.
Proof.
  revert s. induction old as [|a old IH]; intros [|b s]; simpl; try easy.
  intros H. apply andb_prop in H as [E P]. apply N.eqb_eq in E as ->.
  intros [-> | I]; auto.
Qed.

Lemma replace_absent (s old new : str) (x : char) :
  In x old -> ~ In x s -> replace s old new = s.
Proof.
  intros I. unfold replace. induction s as [|c s IH]; intros N; [reflexivity|].
  cbn [replace_go].
  destruct (is_prefix old (c :: s)) eqn:P.
  - exfalso. apply N. eapply is_prefix_in; eauto.
  - f_equal. apply IH. intros J. apply N. now right.
Qed.

(** What the four replacements leave: no [Â] and no low quotation mark. *)
Lemma replacements_remove (field : str) (c : char) :
  In c (fold_left (fun f '(bad, good) => replace f bad good) replacements field) ->
  c <> 194 /\ c <> 8218.
Proof.
  unfold replacements. cbn [fold_left].
  change (u "Â") with [194].
  rewrite !replace_delete. intros H.
  apply filter_In in H as [H N1]. apply filter_In in H as [_ N2].
  apply negb_true_iff, N.eqb_neq in N1, N2. auto.
Qed.

Lemma replacements_id (s : str) :
  ~ In 194 s -> ~ In 8218 s ->
  fold_left (fun f '(bad, good) => replace f bad good) replacements s = s.
Proof.
  intros A B. unfold replacements. cbn [fold_left].
  rewrite (@replace_absent s (u "â‚¬") _ 8218) by (auto; vm_compute; auto).
  rewrite (@replace_absent s (u "Â£") _ 194) by (auto; vm_compute; auto).
  rewrite (@replace_absent s (u "Â") _ 194) by (auto; vm_compute; auto).
  now rewrite (@replace_absent s [8218] _ 8218) by (auto; vm_compute; auto).
Qed.

Lemma clean_field_some (field r : str) :
  clean_field field = Some r ->
  r = strip (squeeze false
        (fold_left (fun f '(bad, good) => replace f bad good) replacements field)).
Proof.
  unfold clean_field. destruct (_ || _); [discriminate|].
  intros [= <-]. now rewrite re_sub_spaces_squeeze.
Qed.

Lemma single_spaced_at (a b : str) (x : char) :
  single_spaced (a ++ x :: b) = true -> is_space x = true ->
  x = 32 /\ head_space b = false.
Proof.
  intros H X. apply single_spaced_suffix in H. simpl in H. rewrite X in H.
  apply andb_prop in H as [H _]. apply andb_prop in H as [E N].
  apply N.eqb_eq in E. apply negb_true_iff in N. auto.
Qed.

End CleanField.

(** X1. What [clean_field] returns is trimmed and single-spaced: it is its
    own [strip], and each of its white-space characters is one ASCII space
    that stands between two characters that are not white space. *)
Theorem clean_field_normalised {U : UnicodeData} (field r : str) :
  clean_field field = Some r ->
  strip r = r
  /\ forall a x b,
       r = a ++ x :: b -> is_space x = true ->
       x = 32
       /\ (exists a' p, a = a' ++ [p] /\ is_space p = false)
       /\ (exists n b', b = n :: b' /\ is_space n = false).
Proof.
  intros H. apply clean_field_some in H.
  assert (St : strip r = r) by (rewrite H; apply strip_idempotent).
  assert (Sp : single_spaced r = true).
  { rewrite H. apply single_spaced_strip, squeeze_single. }
  split; [exact St|]. intros a x b E X.
  rewrite E in Sp. destruct (single_spaced_at _ _ _ Sp X) as [-> N].
  split; [reflexivity|]. split.
  - destruct (rev a) as [|p a'] eqn:R.
    + apply (f_equal (@rev char)) in R. rewrite rev_involutive in R. subst a.
      apply strip_fixed_head in St. rewrite E in St. simpl in St. congruence.
    + apply (f_equal (@rev char)) in R. rewrite rev_involutive in R. simpl in R.
      exists (rev a'), p. split; [exact R|].
      destruct (is_space p) eqn:P; [|reflexivity].
      rewrite R, <- app_assoc in Sp. simpl in Sp.
      destruct (single_spaced_at _ _ _ Sp P) as [_ N']. simpl in N'. congruence.
  - destruct b as [|n b'].
    + eapply strip_fixed_last in St; [|exact E]. congruence.
    + exists n, b'. auto.
Qed.

Lemma clean_field_normalised_witness :
  @clean_field plain_unicode (u "  ATM   Â£ Location ") = Some (u "ATM £ Location")
  /\ @strip plain_unicode (u "ATM £ Location") = u "ATM £ Location".
Proof.
  assert (H : @clean_field plain_unicode (u "  ATM   Â£ Location ")
              = Some (u "ATM £ Location")) by (vm_compute; reflexivity).
  split; [exact H|].
  exact (proj1 (@clean_field_normalised plain_unicode _ _ H)).
Defined.

(** X2. What [clean_field] returns holds neither the character [Â] nor the
    low quotation mark U+201A, wherever they stood in the field. *)
Theorem clean_field_removes {U : UnicodeData} (field r : str) :
  clean_field field = Some r ->
  ~ In (chr "Â") r /\ ~ In 8218 r.
Proof.
  intros H. apply clean_field_some in H.
  assert (K : forall c, In c r -> c <> 194 /\ c <> 8218).
  { intros c I. rewrite H in I. apply strip_in, squeeze_in in I as [-> | I].
    - split; discriminate.
    - eapply replacements_remove; eauto. }
  change (chr "Â") with 194.
  split; intros I; apply K in I as [A B]; congruence.
Qed.

Lemma clean_field_removes_witness :
  @clean_field plain_unicode (u "âÂ‚¬ 5Â") = Some (u "â¬ 5")
  /\ ~ In (chr "Â") (u "â¬ 5") /\ ~ In 8218 (u "â¬ 5").
Proof.
  assert (H : @clean_field plain_unicode (u "âÂ‚¬ 5Â") = Some (u "â¬ 5"))
    by (vm_compute; reflexivity).
  split; [exact H|].
  exact (@clean_field_removes plain_unicode _ _ H).
Defined.

(** X3. Cleaning a cleaned field changes nothing: when [clean_field]
    returns a string and is called on that string again, it returns either
    null (the string is empty, or spells [none] or [null]) or the very same
    string. *)
Theorem clean_field_idempotent {U : UnicodeData} (field r r' : str) :
  clean_field field = Some r -> clean_field r = Some r' -> r' = r.
Proof.
  intros H H'.
  pose proof (clean_field_some _ H) as E.
  assert (St : strip r = r) by (rewrite E; apply strip_idempotent).
  assert (Sp : single_spaced r = true).
  { rewrite E. apply single_spaced_strip, squeeze_single. }
  assert (K : forall c, In c r -> c <> 194 /\ c <> 8218).
  { intros c I. rewrite E in I. apply strip_in, squeeze_in in I as [-> | I].
    - split; discriminate.
    - eapply replacements_remove; eauto. }
  apply clean_field_some in H'. rewrite H'.
  rewrite replacements_id, squeeze_id; auto.
  - intros I. now apply K in I.
  - intros I. now apply K in I.
Qed.

Lemma clean_field_idempotent_witness :
  exists r r',
    @clean_field plain_unicode (u "  ATM   Â£ Location ") = Some r
    /\ @clean_field plain_unicode r = Some r'
    /\ r' = r /\ r = u "ATM £ Location".
Proof.
  assert (H : @clean_field plain_unicode (u "  ATM   Â£ Location ")
              = Some (u "ATM £ Location")) by (vm_compute; reflexivity).
  assert (H' : @clean_field plain_unicode (u "ATM £ Location")
               = Some (u "ATM £ Location")) by (vm_compute; reflexivity).
  exists (u "ATM £ Location"), (u "ATM £ Location").
  split; [exact H|]. split; [exact H'|].
  split; [exact (@clean_field_idempotent plain_unicode _ _ _ H H')|reflexivity].
Defined.

(** ** [extract_amount] and the characters it drops *)

(** X4. Characters other than decimal digits, the dot, the comma and the
    three currency symbols are invisible to the amount: with or without
    such a character anywhere in the token, [extract_amount] gives the
    same amount, or raises alike.  So a minus sign is dropped, and a
    space between digits joins them. *)
Theorem extract_amount_ignores {U : UnicodeData} (a b : str) (c : char) :
  amount_char c = false ->
  amount_of (extract_amount (a ++ c :: b)) = amount_of (extract_amount (a ++ b)).
Proof.
  intros C. rewrite !extract_amount_amount, !filter_app. simpl.
  now rewrite C.
Qed.

Lemma extract_amount_ignores_witness :
  @amount_char plain_unicode (chr "-") = false
  /\ amount_of (@extract_amount plain_unicode (u "-500")) = Ok (Some 500%float)
  /\ amount_of (@extract_amount plain_unicode (u "-500"))
     = amount_of (@extract_amount plain_unicode (u "500")).
Proof.
  split; [reflexivity|]. split; [vm_compute; reflexivity|].
  apply (@extract_amount_ignores plain_unicode [] (u "500") (chr "-")).
  reflexivity.
Defined.

(** ** The records of [parse_transaction_line] *)

Ltac registry_cases I :=
  unfold registry in I; cbn [In] in I;
  decompose [or] I; clear I; try contradiction; subst;
  cbn [pattern bindings priority] in *.

Ltac run_fields H :=
  unfold fields1, fields2, fields3, fields45, fields6, fields7, fields8, fields9 in H;
  cbv beta iota zeta delta [bind] in H;
  repeat match type of H with
         | context [match ?x with Ok _ => _ | Raise _ => _ end] =>
             let E := fresh "E" in
             destruct x eqn:E; cbv beta iota in H; [|discriminate H]
         end;
  injection H as H; subst.

Section Records.
Context {U : UnicodeData}.

Lemma parse_transaction_line_cases (line : str) (row : Z) (r : record) :
  parse_transaction_line line row = Some r ->
  exists g m,
    first_match registry line = Some (g, m)
    /\ In g registry
    /\ re_match (pattern g) line = Some m
    /\ bindings g (blank line row) m = Ok r.
Proof.
  intros H. apply parse_transaction_line_some in H as (g & m & F & B & _).
  exists g, m. split; [exact F|]. split; [eapply first_match_in; eauto|].
  apply first_match_inv in F as (before & after & _ & _ & M). auto.
Qed.

End Records.

(** Group [i] of a match is what the pattern of group [i] read. *)
Section GroupPattern.
Context {U : UnicodeData}.

Lemma binds_group_pattern (r : regex) (w rest : str) (g g' : groups) (i : nat) :
  binds r w rest g g' ->
  (closes r i = false -> group g' i = group g i)
  /\ (forall r1,
        group_pattern r i = Some r1 ->
        exists rest' ga gb, binds r1 (group g' i) rest' ga gb).
Proof.
  induction 1 as [rest g|a c rest g Ok|a lo hi w rest g P Lo Hi
                 |r1 r2 w1 w2 rest g g1 g2 B1 [IH1 IH1'] B2 [IH2 IH2']
                 |r1 r2 w rest g g' B [IH IH']|r1 r2 w rest g g' B [IH IH']
                 |j r w rest g g' B [IH IH']|rest g|rest g E];
    cbn [closes group_pattern]; try (split; [reflexivity|discriminate]).
  - split.
    + intros C. apply orb_false_elim in C as [C1 C2].
      now rewrite IH2, IH1.
    + intros r0. destruct (closes r2 i) eqn:C; [auto|].
      rewrite (IH2 eq_refl). auto.
  - split; [|discriminate].
    intros C. apply orb_false_elim in C as [C1 C2]. auto.
  - split; [|discriminate].
    intros C. apply orb_false_elim in C as [C1 C2]. auto.
  - cbn [group]. rewrite (Nat.eqb_sym i j).
    destruct (Nat.eqb j i) eqn:J; cbn [orb].
    + split; [discriminate|]. intros r1 [= <-]. eauto.
    + split; auto.
Qed.

Lemma re_match_group (pattern r1 : regex) (i : nat) (line : str) (m : groups) :
  re_match pattern line = Some m ->
  group_pattern pattern i = Some r1 ->
  exists rest ga gb, binds r1 (group m i) rest ga gb.
Proof.
  intros M G. apply re_match_binds in M as (w & s' & _ & B).
  eapply binds_group_pattern in B as [_ B]. eauto.
Qed.

Lemma plus_word (w rest : str) (ga gb : groups) :
  binds (plus AWord) w rest ga gb -> word w.
Proof.
  inversion 1; subst. split; [|assumption].
  intros ->. simpl in *. lia.
Qed.

(** The group each pattern binds the user to is a word. *)
Lemma user_groups (line : str) (m : groups) :
  (re_match pattern1 line = Some m -> word (group m 2))
  /\ (re_match pattern2 line = Some m -> word (group m 1))
  /\ (re_match pattern3 line = Some m -> word (group m 2))
  /\ (re_match pattern4 line = Some m -> word (group m 2))
  /\ (re_match pattern5 line = Some m -> word (group m 2))
  /\ (re_match pattern6 line = Some m -> word (group m 2))
  /\ (re_match pattern7 line = Some m -> word (group m 1))
  /\ (re_match pattern8 line = Some m -> word (group m 2))
  /\ (re_match pattern9 line = Some m -> word (group m 2)).
Proof.
  repeat match goal with |- _ /\ _ => split end;
    intros M;
    match goal with
    | |- word (group m ?n) =>
        eapply re_match_group with (i := n) in M as (rest & ga & gb & B);
          [|reflexivity]
    end;
    eapply plus_word; exact B.
Qed.

End GroupPattern.

(** X5. The user identifier of a record is never null and never empty, and
    it is made of word characters only: letters, digits and the
    underscore. *)
Theorem user_id_is_word {U : UnicodeData} (line : str) (row : Z) (r : record) :
  parse_transaction_line line row = Some r ->
  exists w, user_id r = Some w /\ word w.
Proof.
  intros H. apply parse_transaction_line_cases in H as (g & m & _ & I & M & B).
  destruct (user_groups line m) as (G1 & G2 & G3 & G4 & G5 & G6 & G7 & G8 & G9).
  registry_cases I; run_fields B; unfold update; cbn [user_id];
    (eexists; split; [reflexivity|]);
    match goal with
    | M : re_match ?p _ = Some _, G : re_match ?p _ = Some _ -> _ |- _ =>
        exact (G M)
    end.
Qed.

Lemma user_id_is_word_witness :
  exists r,
    @parse_transaction_line plain_unicode example2 1 = Some r
    /\ user_id r = Some (u "user123")
    /\ exists w, user_id r = Some w /\ @word plain_unicode w.
Proof.
  destruct (@parse_transaction_line plain_unicode example2 1) as [r|] eqn:E;
    [|vm_compute in E; discriminate E].
  exists r. split; [reflexivity|].
  split; [vm_compute in E; injection E as <-; reflexivity|].
  exact (user_id_is_word _ _ E).
Defined.

(** ** The row identifier *)

Section RowId.
Context {U : UnicodeData}.

Lemma bindings_relabel (g : grammar) (line : str) (row row' : Z) (m : groups) :
  In g registry ->
  outcome (bindings g (blank line row') m)
  = option_map (with_row_id row') (outcome (bindings g (blank line row) m)).
Proof.
  intros I. registry_cases I;
    unfold fields1, fields2, fields3, fields45, fields6, fields7, fields8, fields9;
    cbv beta iota zeta delta [bind];
    repeat match goal with
           | |- context [match ?x with Ok _ => _ | Raise _ => _ end] => destruct x
           end;
    reflexivity.
Qed.

Lemma parse_transaction_line_relabel (line : str) (row row' : Z) :
  parse_transaction_line line row'
  = option_map (with_row_id row') (parse_transaction_line line row).
Proof.
  rewrite !parse_transaction_line_first_match.
  destruct (first_match registry line) as [[g m]|] eqn:F; [|reflexivity].
  apply bindings_relabel. eapply first_match_in; eauto.
Qed.

Lemma parse_lines_shift (lines : list str) :
  forall idx k,
    parse_lines (idx + k) lines = map (shift_row k) (parse_lines idx lines).
Proof.
  induction lines as [|line lines IH]; intros idx k; [reflexivity|].
  cbn [parse_lines].
  rewrite (parse_transaction_line_relabel line (Z.of_nat idx + 1)
             (Z.of_nat (idx + k) + 1)).
  change (S (idx + k)) with (S idx + k)%nat.
  destruct (parse_transaction_line line (Z.of_nat idx + 1)) as [r|] eqn:P;
    cbn [option_map map]; rewrite IH; [|reflexivity].
  f_equal. unfold shift_row. f_equal.
  apply parse_transaction_line_ids in P as [-> _]. lia.
Qed.

Lemma post_process_shift (k : nat) (r : record) :
  post_process (shift_row k r) = shift_row k (post_process r).
Proof. reflexivity. Qed.

End RowId.

(** X6. The row identifier is a label only: parsed under another
    identifier a line gives the same record under that identifier, or is
    dropped alike; and the record has the identifier and the line it was
    called with. *)
Theorem row_id_labels {U : UnicodeData} (line : str) (row : Z) :
  (forall row',
      parse_transaction_line line row'
      = option_map (with_row_id row') (parse_transaction_line line row))
  /\ (forall r,
        parse_transaction_line line row = Some r ->
        row_id r = row /\ original_log r = line).
Proof.
  split.
  - intros row'. apply parse_transaction_line_relabel.
  - apply parse_transaction_line_ids.
Qed.

(** ** Line breaks and the white space around a line *)

Section Lines.
Context {U : UnicodeData}.

Lemma split_go_app (sep : char) (a b : str) :
  forall cur,
    split_go sep cur (a ++ sep :: b) = split_go sep cur a ++ split_go sep [] b.
Proof.
  induction a as [|c a IH]; intros cur; cbn [app split_go].
  - now rewrite N.eqb_refl.
  - destruct (c =? sep); [cbn [app]; f_equal|]; apply IH.
Qed.

Lemma valid_lines_app (a b : str) :
  valid_lines (a ++ 10 :: b) = valid_lines a ++ valid_lines b.
Proof.
  unfold valid_lines, split. now rewrite split_go_app, filter_app, map_app.
Qed.








End Lines.

(** ** The data set, line by line *)

Section DataSet.
Context {U : UnicodeData}.
Variable read_text : str -> result str.

Lemma raw_data_content (c : char) (text : str) :
  raw_content read_text None (Some (c :: text)) = Ok (c :: text).
Proof. reflexivity. Qed.

Lemma raw_data_inv (a content : str) :
  raw_content read_text None (Some a) = Ok content -> content = a /\ a <> [].
Proof.
  destruct a as [|c a]; [discriminate|].
  intros [= <-]. split; [reflexivity|discriminate].
Qed.

Lemma clean_transaction_logs_raw (a : str) :
  a <> [] ->
  clean_transaction_logs read_text None (Some a)
  = Ok (map post_process (parse_lines 0 (valid_lines a))).
Proof.
  intros N. apply clean_transaction_logs_ok.
  destruct a as [|c a]; [now elim N|reflexivity].
Qed.

Lemma data_set_chunks (a b : str) (da db : list record) :
  clean_transaction_logs read_text None (Some a) = Ok da ->
  clean_transaction_logs read_text None (Some b) = Ok db ->
  clean_transaction_logs read_text None (Some (a ++ 10 :: b))
  = Ok (da ++ map (shift_row (List.length (valid_lines a))) db).
Proof.
  intros A B.
  apply clean_transaction_logs_inv in A as (ca & Ca & ->).
  apply clean_transaction_logs_inv in B as (cb & Cb & ->).
  apply raw_data_inv in Ca as [-> Na]. apply raw_data_inv in Cb as [-> _].
  rewrite clean_transaction_logs_raw by (destruct a; [now elim Na|discriminate]).
  rewrite valid_lines_app, parse_lines_app, map_app.
  f_equal. f_equal.
  rewrite (parse_lines_shift (valid_lines b) 0 (List.length (valid_lines a))).
  rewrite !map_map. reflexivity.
Qed.


(** Where the [original_log] of a row comes from. *)
Lemma data_set_original_log (path raw : option str) (ds : list record)
    (r : record) :
  clean_transaction_logs read_text path raw = Ok ds -> In r ds ->
  exists content line,
    raw_content read_text path raw = Ok content
    /\ In line (split content 10)
    /\ original_log r = strip line
    /\ original_log r <> []
    /\ startswith (original_log r) (u "raw_log") = false.
Proof.
  intros H I. apply clean_transaction_logs_inv in H as (content & C & ->).
  apply in_map_iff in I as (r0 & <- & I).
  apply parse_lines_from in I as (i & line' & Nth & P).
  apply parse_transaction_line_ids in P as [_ O].
  apply nth_error_In in Nth. unfold valid_lines in Nth.
  apply in_map_iff in Nth as (line & <- & K).
  apply filter_In in K as [K1 K2].
  exists content, line. split; [exact C|]. split; [exact K1|].
  change (original_log (post_process r0)) with (original_log r0). rewrite O.
  split; [reflexivity|].
  unfold keep_line in K2.
  apply andb_prop in K2 as [K2 K3]. apply andb_prop in K2 as [K2 _].
  split.
  - intros E. rewrite E in K2. discriminate.
  - now apply negb_true_iff in K3.
Qed.

End DataSet.

Section Cells.
Context {U : UnicodeData}.

Lemma clean_field_tidy (field w : str) : clean_field field = Some w -> tidy w.
Proof.
  intros H. apply clean_field_some in H. unfold tidy.
  assert (K : forall c, In c w -> c <> 194 /\ c <> 8218).
  { intros c I. rewrite H in I. apply strip_in, squeeze_in in I as [-> | I].
    - split; discriminate.
    - eapply replacements_remove; eauto. }
  split; [rewrite H; apply strip_idempotent|].
  split; [rewrite H; apply single_spaced_strip, squeeze_single|].
  split; intros I; apply K in I as [A B]; congruence.
Qed.

Lemma unknown_tidy : tidy (u "Unknown").
Proof.
  unfold tidy. split; [reflexivity|]. split; [reflexivity|].
  split; intros I; simpl in I; decompose [or] I; try discriminate; contradiction.
Qed.

Lemma filled_cell_tidy (field : str) :
  exists w, fillna (u "Unknown") (clean_field field) = Some w /\ tidy w.
Proof.
  destruct (clean_field field) as [w|] eqn:C; cbn [fillna].
  - exists w. split; [reflexivity|]. eapply clean_field_tidy; eauto.
  - exists (u "Unknown"). split; [reflexivity|apply unknown_tidy].
Qed.

(** The location and the device of a record went through [clean_field]. *)
Lemma record_cells (line : str) (row : Z) (r : record) :
  parse_transaction_line line row = Some r ->
  exists loc dev, location r = clean_field loc /\ device r = clean_field dev.
Proof.
  intros H. apply parse_transaction_line_cases in H as (g & m & _ & I & _ & B).
  registry_cases I; run_fields B; unfold update; cbn [location device]; eauto.
Qed.

End Cells.

(** X7. A text is parsed line by line, so the data set of two texts joined
    by a line break is the data set of the first followed by that of the
    second, whose rows are numbered on from the valid lines of the first:
    the row identifiers of the second move by the number of lines of the
    first that pass the filter, parsed or not. *)
Theorem chunks_compose {U : UnicodeData} :
  (forall a b, valid_lines (a ++ 10 :: b) = valid_lines a ++ valid_lines b)
  /\ (forall (read_text : str -> result str) a b da db,
        clean_transaction_logs read_text None (Some a) = Ok da ->
        clean_transaction_logs read_text None (Some b) = Ok db ->
        clean_transaction_logs read_text None (Some (a ++ 10 :: b))
        = Ok (da ++ map (shift_row (List.length (valid_lines a))) db)).
Proof.
  split; [exact valid_lines_app|].
  intros read_text a b da db. apply data_set_chunks.
Qed.

(** The theorem at the text of [example7] and a line that no pattern
    matches, joined to the text of [example1]: the row of [example1] gets
    the identifier 3. *)
Lemma chunks_compose_witness :
  exists ra rb,
    @clean_transaction_logs plain_unicode (fun _ => Raise OSError) None
       (Some (example7 ++ 10 :: u "garbage")) = Ok [ra]
    /\ @clean_transaction_logs plain_unicode (fun _ => Raise OSError) None
         (Some example1) = Ok [rb]
    /\ row_id ra = 1%Z /\ row_id rb = 1%Z
    /\ @clean_transaction_logs plain_unicode (fun _ => Raise OSError) None
         (Some ((example7 ++ 10 :: u "garbage") ++ 10 :: example1))
       = Ok [ra; with_row_id 3 rb].
Proof.
  pose proof (@chunks_compose plain_unicode) as [_ H].
  eexists. eexists.
  assert (A : @clean_transaction_logs plain_unicode (fun _ => Raise OSError) None
                (Some (example7 ++ 10 :: u "garbage"))
              = Ok (map post_process
                      (@parse_lines plain_unicode 0 [example7; u "garbage"])))
    by reflexivity.
  assert (B : @clean_transaction_logs plain_unicode (fun _ => Raise OSError) None
                (Some example1)
              = Ok (map post_process (@parse_lines plain_unicode 0 [example1])))
    by reflexivity.
  pose proof (H _ _ _ _ _ A B) as C.
  vm_compute in A, B.
  split; [exact A|]. split; [exact B|].
  split; [reflexivity|]. split; [reflexivity|].
  rewrite C. vm_compute. reflexivity.
Defined.



(** X9. The [original_log] of a row of the data set is a line of the text
    with the white space at its two ends stripped; it is never empty and
    never starts with [raw_log], so a line whose first word is [raw_log]
    gives no row, although [parse_transaction_line] called on it makes a
    record. *)
Theorem original_log_of_rows {U : UnicodeData}
    (read_text : str -> result str) (path raw : option str)
    (ds : list record) (r : record) :
  clean_transaction_logs read_text path raw = Ok ds -> In r ds ->
  exists content line,
    raw_content read_text path raw = Ok content
    /\ In line (split content 10)
    /\ original_log r = strip line
    /\ original_log r <> []
    /\ startswith (original_log r) (u "raw_log") = false.
Proof. apply data_set_original_log. Qed.

(** The theorem at the text of [header_like_line], with a space before it,
    and [example7]: the one row is that of [example7], under the
    identifier 1. *)
Lemma original_log_of_rows_witness :
  exists r0 r,
    @parse_transaction_line plain_unicode header_like_line 1 = Some r0
    /\ user_id r0 = Some (u "raw_log")
    /\ @clean_transaction_logs plain_unicode (fun _ => Raise OSError) None
         (Some (32 :: header_like_line ++ 10 :: example7)) = Ok [r]
    /\ row_id r = 1%Z
    /\ original_log r = example7
    /\ exists content line,
         raw_content (fun _ => Raise OSError) None
            (Some (32 :: header_like_line ++ 10 :: example7)) = Ok content
         /\ In line (split content 10)
         /\ original_log r = @strip plain_unicode line
         /\ original_log r <> []
         /\ startswith (original_log r) (u "raw_log") = false.
Proof.
  eexists. eexists.
  split; [vm_compute; reflexivity|]. split; [reflexivity|].
  assert (D : @clean_transaction_logs plain_unicode (fun _ => Raise OSError) None
                (Some (32 :: header_like_line ++ 10 :: example7))
              = Ok (map post_process
                      (@parse_lines plain_unicode 0 [example7])))
    by reflexivity.
  pose proof (fun r => @original_log_of_rows plain_unicode _ _ _ _ r D) as H.
  vm_compute in D.
  split; [exact D|]. split; [reflexivity|]. split; [reflexivity|].
  apply H. vm_compute. left. reflexivity.
Defined.

(** X10. In the data set the location and the device of a row are never
    null, and each is a tidy cell: trimmed, single-spaced and without the
    characters U+00C2 and U+201A, be it a cleaned field of the line or the
    filler [Unknown].  Before the filling, in the record of
    [parse_transaction_line], each is null or tidy. *)
Theorem location_device_tidy {U : UnicodeData} :
  (forall line row r,
      parse_transaction_line line row = Some r ->
      forall w, location r = Some w \/ device r = Some w -> tidy w)
  /\ (forall (read_text : str -> result str) path raw ds r,
        clean_transaction_logs read_text path raw = Ok ds -> In r ds ->
        (exists w, location r = Some w /\ tidy w)
        /\ (exists w, device r = Some w /\ tidy w)).
Proof.
  split.
  - intros line row r H w L.
    apply record_cells in H as (loc & dev & El & Ed).
    rewrite El, Ed in L. destruct L; eapply clean_field_tidy; eauto.
  - intros read_text path raw ds r H I.
    apply clean_transaction_logs_inv in H as (content & _ & ->).
    apply in_map_iff in I as (r0 & <- & I).
    apply parse_lines_from in I as (i & line & _ & P).
    apply record_cells in P as (loc & dev & El & Ed).
    cbn [post_process location device]. rewrite El, Ed.
    split; apply filled_cell_tidy.
Qed.

(** The theorem at a line of pattern 1 whose location has a bad character
    and a run of spaces, and whose device spells [null]. *)
Lemma location_device_tidy_witness :
  exists r,
    @clean_transaction_logs plain_unicode (fun _ => Raise OSError) None
       (Some (u "2023-05-14 14:05:31::user123::top-up::500::ATM   Â Location ::null"))
    = Ok [r]
    /\ location r = Some (u "ATM Location")
    /\ device r = Some (u "Unknown")
    /\ (exists w, location r = Some w /\ @tidy plain_unicode w)
    /\ (exists w, device r = Some w /\ @tidy plain_unicode w).
Proof.
  pose proof (@location_device_tidy plain_unicode) as [_ H].
  eexists.
  assert (D : @clean_transaction_logs plain_unicode (fun _ => Raise OSError) None
                (Some (u "2023-05-14 14:05:31::user123::top-up::500::ATM   Â Location ::null"))
              = Ok (map post_process
                      (@parse_lines plain_unicode 0
                         [u "2023-05-14 14:05:31::user123::top-up::500::ATM   Â Location ::null"])))
    by reflexivity.
  pose proof (fun r => H _ _ _ _ r D) as K.
  vm_compute in D.
  split; [exact D|]. split; [reflexivity|]. split; [reflexivity|].
  apply K. vm_compute. left. reflexivity.
Defined.

(** ** Null amounts *)

Section NullAmount.
Context {U : UnicodeData}.

Lemma first_match_bindings (line : str) (row : Z) (r : record)
    (g : grammar) (m : groups) :
  parse_transaction_line line row = Some r ->
  first_match registry line = Some (g, m) ->
  In g registry /\ bindings g (blank line row) m = Ok r.
Proof.
  rewrite parse_transaction_line_first_match. intros H F. rewrite F in H.
  split; [eapply first_match_in; eauto|].
  destruct (bindings g (blank line row) m); [|discriminate].
  now injection H as ->.
Qed.

Lemma info_amount_null (token : str) (info : amount_info) :
  extract_amount token = Ok info ->
  (info_amount info = None <-> no_number token)
  /\ (info_amount info = None -> info_currency info = u "GBP").
Proof.
  intros E. split; [split|].
  - intros N. exact (proj2 (extract_amount_null _ E N)).
  - intros N. rewrite (extract_amount_no_number _ N) in E.
    now injection E as <-.
  - intros N. exact (proj1 (extract_amount_null _ E N)).
Qed.

End NullAmount.

(** X11. The amount of a record is null exactly when the line went to one
    of the grammars 1 to 6 and its amount token has neither a decimal digit
    nor a comma (dots, after the optional symbol); the currency is then GBP
    whatever the symbol.  The grammars 7 to 9 never leave a null amount. *)
Theorem null_amount {U : UnicodeData} (line : str) (row : Z) (r : record)
    (g : grammar) (m : groups) :
  parse_transaction_line line row = Some r ->
  first_match registry line = Some (g, m) ->
  (amount r = None
   <-> (priority g <= 6)%nat /\ no_number (amount_token g m))
  /\ (amount r = None -> currency r = Some (u "GBP")).
Proof.
  intros H F. destruct (first_match_bindings _ _ H F) as [I B]. clear H F.
  registry_cases I; run_fields B; unfold update, amount_token;
    cbn [amount currency priority Nat.eqb];
    try match goal with
        | E : extract_amount _ = Ok _ |- _ =>
            destruct (info_amount_null _ E) as [[A1 A2] A3];
              (split; [split; [intros N; split; [lia|auto]|intros [_ N]; auto]
                      |intros N; f_equal; auto])
        end;
    (split; [split; [discriminate|intros [L _]; lia]|discriminate]).
Qed.

(** The theorem at [dots_line]. *)
Lemma null_amount_witness :
  exists r g m,
    @parse_transaction_line plain_unicode dots_line 1 = Some r
    /\ @first_match plain_unicode registry dots_line = Some (g, m)
    /\ amount r = None
    /\ currency r = Some (u "GBP")
    /\ (priority g <= 6)%nat
    /\ @no_number plain_unicode (amount_token g m).
Proof.
  destruct (@parse_transaction_line plain_unicode dots_line 1) as [r|] eqn:P;
    [|vm_compute in P; discriminate P].
  destruct (parse_transaction_line_some _ _ P) as (g & m & F & _).
  destruct (null_amount _ _ P F) as [[N _] C].
  assert (A : amount r = None)
    by (vm_compute in P; injection P as <-; reflexivity).
  exists r, g, m.
  split; [reflexivity|]. split; [exact F|]. split; [exact A|].
  split; [exact (C A)|]. exact (N A).
Defined.
